(** * cxa81-serial: serial protocol codec, device state and HTTP dispatcher

    A shallow embedding of [cax81.go] (the bridge between the amplifier's
    serial protocol and the HTTP status API), with the [/source] endpoint
    of the earlier server revision in [Module SourceEndpoint], the rest
    of that revision in [Module Rev1] and the reader of the first
    revision in [Module Rev0].

    Conventions of the embedding:
    - Go strings are byte strings: [string] over [ascii].
    - [*Amplifier] methods take the amplifier and return the new one
      (explicit state passing); a method returning [error] returns
      [option error], [None] standing for [nil].
    - the mutex [a.mu] is held for the whole of [UpdateState] and
      [ServeHTTP]; each of these is therefore one atomic function.
    - the serial port and the HTTP response writer are the two external
      collaborators; both are modelled by the calls made on them. *)

From Stdlib Require Import String Ascii List Bool Arith Lia.
From Equations Require Import Equations.
Import ListNotations.
Open Scope list_scope.
Open Scope string_scope.

(** ** Data model *)

(** [type Command struct { Group, Number, Data string }] *)
Module Command.
Record t : Set := mk { Group : string; Number : string; Data : string }.
End Command.

(** [type Reply struct { Group, Number, Data string }] *)
Module Reply.
Record t : Set := mk { Group : string; Number : string; Data : string }.
End Reply.

(** Amplifier commands. *)
Definition GetPowerState   := Command.mk "01" "01" "".
Definition SetPowerStandby := Command.mk "01" "02" "0".
Definition SetPowerOn      := Command.mk "01" "02" "1".
Definition GetMuteState    := Command.mk "01" "03" "".
Definition SetMuteOff      := Command.mk "01" "04" "0".
Definition SetMuteOn       := Command.mk "01" "04" "1".

(** Source commands. *)
Definition GetSource           := Command.mk "03" "01" "".
Definition GetNextSource       := Command.mk "03" "02" "".
Definition GetPreviousSource   := Command.mk "03" "03" "".
Definition SetSourceA1         := Command.mk "03" "04" "00".
Definition SetSourceA2         := Command.mk "03" "04" "01".
Definition SetSourceA3         := Command.mk "03" "04" "02".
Definition SetSourceA4         := Command.mk "03" "04" "03".
Definition SetSourceD1         := Command.mk "03" "04" "04".
Definition SetSourceD2         := Command.mk "03" "04" "05".
Definition SetSourceD3         := Command.mk "03" "04" "06".
Definition SetSourceMP3        := Command.mk "03" "04" "10".
Definition SetSourceBluetooth  := Command.mk "03" "04" "14".
Definition SetSourceUSBAudio   := Command.mk "03" "04" "16".
Definition SetSourceA1Balanced := Command.mk "03" "04" "20".

(** Version commands. *)
Definition GetProtocolVersion := Command.mk "13" "01" "".
Definition GetFirmwareVersion := Command.mk "13" "02" "".

(** [var sources = map[string]string{...}]: the entries of the map
    literal.  Keys are distinct, so the order is immaterial. *)
Definition sources : list (string * string) :=
  [ ("00", "A1"); ("01", "A2"); ("02", "A3"); ("03", "A4");
    ("04", "D1"); ("05", "D2"); ("06", "D3"); ("10", "MP3");
    ("14", "Bluetooth"); ("16", "USB"); ("20", "A1 Balanced") ].

(** [sources[k]]: indexing a Go map yields the zero value (the empty
    string) for a key that is absent. *)
Definition sources_at (k : string) : string :=
  match find (fun kv => fst kv =? k) sources with
  | Some kv => snd kv
  | None => ""
  end.

(** Go's [error] values of this program.  [fmt.Errorf] with [%s] verbs
    is a concatenation; the [%q] verb of [readUpdate]'s error quotes its
    argument, so that error keeps the argument instead of a rendering. *)
Inductive error : Set :=
| errorString (msg : string)
| invalidReplyFormat (response : string).

(** ** The serial port

    [a.port] is an [io.ReadWriteCloser].  The write side is modelled by
    the payloads handed to [Write], in call order, and by the outcome the
    transport will give to each coming call.  The read side is an input
    of [readUpdate] and [Listen] below. *)
Record Port : Set := mkPort {
  writes : list string;          (* argument of every Write call so far *)
  faults : list (option error)   (* outcome of the coming Write calls *)
}.

Definition Write (p : Port) (b : string) : option error * Port :=
  match faults p with
  | [] => (None, mkPort (writes p ++ [b])%list [])
  | o :: fs => (o, mkPort (writes p ++ [b])%list fs)
  end.

(** [type AmplifierState struct { Power bool; Mute bool; Source string }] *)
Record AmplifierState : Set := mkState {
  Power : bool;
  Mute : bool;
  Source : string
}.

(** [type Amplifier struct { port; mu; state }] *)
Record Amplifier : Set := mkAmp {
  port : Port;
  state : AmplifierState
}.

(** [&Amplifier{port: port}]: every state field has its zero value. *)
Definition zeroState : AmplifierState := mkState false false "".
Definition newAmplifier (p : Port) : Amplifier := mkAmp p zeroState.

Definition setPower (b : bool) (a : Amplifier) : Amplifier :=
  mkAmp (port a) (mkState b (Mute (state a)) (Source (state a))).
Definition setMute (b : bool) (a : Amplifier) : Amplifier :=
  mkAmp (port a) (mkState (Power (state a)) b (Source (state a))).
Definition setSource (s : string) (a : Amplifier) : Amplifier :=
  mkAmp (port a) (mkState (Power (state a)) (Mute (state a)) s).

(** ** Protocol codec: encoding *)

Definition CR : ascii := "013"%char.
Definition CRs : string := String CR "".

(** The string [s] built by [SendCommand]:
    [s := "#" Group "," Number], then ["," Data "\r"] or ["\r"]. *)
Definition frameOf (cmd : Command.t) : string :=
  let s := "#" ++ Command.Group cmd ++ "," ++ Command.Number cmd in
  if Command.Data cmd =? "" then s ++ CRs
  else s ++ ("," ++ Command.Data cmd ++ CRs).

(** [func (a *Amplifier) SendCommand(cmd Command) error] *)
Definition SendCommand (cmd : Command.t) (a : Amplifier) : option error * Amplifier :=
  let (err, p) := Write (port a) (frameOf cmd) in
  (err, mkAmp p (state a)).

(** ** Protocol codec: decoding

    [validReply] is the pattern  # (\d\d) , (\d\d) (?: , ([^\r]* ) )? \r
    (written here with spaces between its parts).
    The pattern is deterministic: [\d] is an ASCII digit, the optional
    group is tried first (greedy [?]) and can only start on a comma,
    where the alternative [\r] cannot match; the greedy star over non-CR bytes stops at
    the first carriage return or at the end of the input, and no shorter
    repetition can be followed by [\r].  The bytes [#] and [\r] are ASCII,
    so matching by bytes and by UTF-8 runes agree. *)

Definition isDigit (c : ascii) : bool :=
  (48 <=? nat_of_ascii c)%nat && (nat_of_ascii c <=? 57)%nat.

(** The greedy star over "[^\r]": the longest prefix free of carriage returns, and
    what follows it. *)
Fixpoint spanNotCR (s : string) : string * string :=
  match s with
  | "" => ("", "")
  | String c s' =>
      if Ascii.eqb c CR then ("", s)
      else let (d, r) := spanNotCR s' in (String c d, r)
  end.

(** One match of [validReply] anchored at the start of [s]: the
    submatches [m[0]; m[1]; m[2]; m[3]] and the input after the match.
    A group that did not take part in the match is the empty string. *)
Definition matchHere (s : string) : option (list string * string) :=
  match s with
  | String h (String g1 (String g2 (String c (String n1 (String n2 t))))) =>
      if Ascii.eqb h "#" && isDigit g1 && isDigit g2 && Ascii.eqb c ","
         && isDigit n1 && isDigit n2
      then
        let G := String g1 (String g2 "") in
        let N := String n1 (String n2 "") in
        let head := "#" ++ G ++ "," ++ N in
        match t with
        | String x t' =>
            if Ascii.eqb x "," then
              (* the optional group ",data", then the carriage return *)
              let (d, r) := spanNotCR t' in
              match r with
              | String _ r' => Some ([head ++ "," ++ d ++ CRs; G; N; d], r')
              | "" => None
              end
            else if Ascii.eqb x CR then
              (* the optional group is skipped *)
              Some ([head ++ CRs; G; N; ""], t')
            else None
        | "" => None
        end
      else None
  | _ => None
  end.

Definition inspect {A : Type} (x : A) : { y : A | x = y } := exist _ x eq_refl.

(** [validReply.FindAllStringSubmatch(response, -1)]: successive
    leftmost matches, each search starting where the previous match
    ended.  No match of this pattern is empty. *)
Equations? FindAllStringSubmatch (s : string) : list (list string)
  by wf (String.length s) lt :=
  FindAllStringSubmatch s with inspect (matchHere s) := {
    | exist _ (Some (m, rest)) e := m :: FindAllStringSubmatch rest;
    | exist _ None e with s := {
        | "" := [];
        | String _ s' := FindAllStringSubmatch s' } }.
Proof.
  (* a match consumes at least the seven bytes of the shortest frame *)
  clear FindAllStringSubmatch.
  assert (span_le : forall u, String.length (snd (spanNotCR u)) <= String.length u).
  { induction u as [|c u IH]; simpl; [lia|].
    destruct (Ascii.eqb c CR); simpl; [lia|].
    destruct (spanNotCR u); simpl in *; lia. }
  unfold matchHere in e.
  destruct s as [|h [|g1 [|g2 [|c [|n1 [|n2 t]]]]]]; try discriminate.
  destruct (_ && _); [|discriminate].
  destruct t as [|x t']; [discriminate|].
  destruct (Ascii.eqb x ",").
  - specialize (span_le t').
    destruct (spanNotCR t') as [d r]; simpl in span_le.
    destruct r as [|y r']; [discriminate|].
    injection e as _ <-. simpl in *. lia.
  - destruct (Ascii.eqb x CR); [|discriminate].
    injection e as _ <-. simpl. lia.
Qed.

(** The body of the loop over the matches builds the reply from
    [m[1]], [m[2]] and, [if len(m) > 3], [m[3]].  Every match of
    [validReply] has four entries. *)
Definition replyOf (m : list string) : Reply.t :=
  Reply.mk (nth 1 m "") (nth 2 m "")
           (if (3 <? List.length m)%nat then nth 3 m "" else "").

(** ** Reply interpreter *)

(** [func (r *Reply) String() string].  The local [data] is resolved
    through [sources] for group 04 / number 01; the final [Sprintf]
    formats [r.Data]. *)
Definition Reply_String (r : Reply.t) : string :=
  let G := Reply.Group r in
  let N := Reply.Number r in
  let unknown := "Unknown reply: " ++ G ++ "," ++ N ++ "," ++ Reply.Data r in
  let data0 := Reply.Data r in
  let '(desc, data) :=
    if G =? "00" then
      (if N =? "01" then "Command group unknown"
       else if N =? "02" then "Command number unknown"
       else if N =? "03" then "Command data error"
       else if N =? "04" then "Command not available"
       else unknown, data0)
    else if G =? "02" then
      (if N =? "01" then "Current power state"
       else if N =? "03" then "Current mute state"
       else unknown, data0)
    else if G =? "04" then
      if N =? "01" then ("Current source", sources_at data0)
      else (unknown, data0)
    else if G =? "14" then
      (if N =? "01" then "Protocol Version"
       else if N =? "02" then "Get Firmware Version"
       else unknown, data0)
    else (unknown, data0) in
  if negb (Reply.Data r =? "") then desc ++ ": " ++ Reply.Data r
  else desc.

(** ** Device state store *)

(** [func (a *Amplifier) UpdateState(r *Reply)], under [a.mu]. *)
Definition UpdateState (r : Reply.t) (a : Amplifier) : Amplifier :=
  if Reply.Group r =? "02" then
    if Reply.Number r =? "01" then
      let a1 := setPower (Reply.Data r =? "1") a in
      (* Powering off resets the muted and source state. *)
      if negb (Power (state a1)) then setSource "" (setMute false a1)
      else a1
    else if Reply.Number r =? "03" then setMute (Reply.Data r =? "1") a
    else a
  else if Reply.Group r =? "04" then
    if Reply.Number r =? "01" then setSource (sources_at (Reply.Data r)) a
    else a
  else a.

(** ** Ingestion loop *)

(** What [a.port.Read(buf)] returned: an error, or the bytes [buf[:n]]. *)
Definition ReadResult : Set := (error + string)%type.

(** The replies of one read, in the order the loop applies them. *)
Definition decode (response : string) : list Reply.t :=
  map replyOf (FindAllStringSubmatch response).

(** [func (a *Amplifier) readUpdate() error] *)
Definition readUpdate (rd : ReadResult) (a : Amplifier) : option error * Amplifier :=
  match rd with
  | inl err => (Some err, a)
  | inr response =>
      match FindAllStringSubmatch response with
      | [] => (Some (invalidReplyFormat response), a)
      | matches =>
          (None, fold_left (fun a' m => UpdateState (replyOf m) a') matches a)
      end
  end.

(** [func (a *Amplifier) Listen()]: the loop never returns; the model
    runs it over the results of the reads the port delivers and gives the
    amplifier after them, with the errors logged on the way. *)
Fixpoint Listen (reads : list ReadResult) (a : Amplifier) (log : list error)
  : Amplifier * list error :=
  match reads with
  | [] => (a, log)
  | rd :: reads' =>
      match readUpdate rd a with
      | (Some err, a') => Listen reads' a' (log ++ [err])%list   (* log; continue *)
      | (None, a') => Listen reads' a' log
      end
  end.

(** ** Command dispatcher *)

(** [func (a *Amplifier) handlePower(s string) error] *)
Definition handlePower (s : string) (a : Amplifier) : option error * Amplifier :=
  if s =? "on" then SendCommand SetPowerOn (setPower true a)
  else if s =? "off" then SendCommand SetPowerStandby (setPower false a)
  else if s =? "toggle" then
    if Power (state a) then SendCommand SetPowerStandby (setPower false a)
    else SendCommand SetPowerOn (setPower true a)
  else if s =? "" then (None, a)
  else (Some (errorString
          ("Unexpected power state " ++ s ++ ", expected: on/off/toggle")), a).

(** [func (a *Amplifier) handleMute(s string) error] *)
Definition handleMute (s : string) (a : Amplifier) : option error * Amplifier :=
  if negb (Power (state a)) then (None, a)
  else if (s =? "on") || (s =? "muted") then
    SendCommand SetMuteOn (setMute true a)
  else if (s =? "off") || (s =? "unmuted") then
    SendCommand SetMuteOff (setMute false a)
  else if s =? "" then (None, a)
  else (Some (errorString
          ("Unexpected mute state " ++ s ++ ", expected: on/off/muted/unmuted")), a).

(** [func (a *Amplifier) handleSource(s string) error] *)
Definition handleSource (s : string) (a : Amplifier) : option error * Amplifier :=
  if negb (Power (state a)) then (None, a)
  else if s =? "A1" then SendCommand SetSourceA1 (setSource "A1" a)
  else if s =? "A2" then SendCommand SetSourceA2 (setSource "A2" a)
  else if s =? "A3" then SendCommand SetSourceA3 (setSource "A3" a)
  else if s =? "A4" then SendCommand SetSourceA4 (setSource "A4" a)
  else if s =? "D1" then SendCommand SetSourceD1 (setSource "D1" a)
  else if s =? "D2" then SendCommand SetSourceD2 (setSource "D2" a)
  else if s =? "D3" then SendCommand SetSourceD3 (setSource "D3" a)
  else if s =? "MP3" then SendCommand SetSourceMP3 (setSource "MP3" a)
  else if s =? "Bluetooth" then
    SendCommand SetSourceBluetooth (setSource "Bluetooth" a)
  else if s =? "USB" then SendCommand SetSourceUSBAudio (setSource "USB" a)
  else if s =? "A1 Balanced" then
    SendCommand SetSourceA1Balanced (setSource "A1 Balanced" a)
  else if s =? "" then (None, a)
  else (Some (errorString ("Unknown source: " ++ s)), a).

(** ** HTTP surface *)

Definition StatusOK : nat := 200.
Definition StatusBadRequest : nat := 400.
Definition StatusInternalServerError : nat := 500.

(** The calls a handler makes on its [http.ResponseWriter], in order. *)
Inductive wcall : Set :=
| http_Error (err : error) (code : nat)   (* http.Error(w, err.Error(), code) *)
| json_Encode (v : AmplifierState).       (* json.NewEncoder(w).Encode(v) *)

(** The status line is fixed by the first call that writes: the code of
    an [http.Error], or 200 for a body written without a header. *)
Definition statusOf (w : list wcall) : nat :=
  match w with
  | http_Error _ code :: _ => code
  | _ => StatusOK
  end.

(** The anonymous request struct of [ServeHTTP]. *)
Module req.
Record t : Set := mk { Power : string; Mute : string; Source : string }.
End req.

(** A request: its method, and what decoding its JSON body into the
    handler's struct gives. *)
Record Request (T : Set) : Set := mkRequest {
  Method : string;
  Body : error + T
}.
Arguments mkRequest {T} _ _.
Arguments Method {T} _.
Arguments Body {T} _.

Definition reported (o : option error) : list wcall :=
  match o with
  | Some err => [http_Error err StatusInternalServerError]
  | None => []
  end.

(** [func (a *Amplifier) ServeHTTP(w, r)], under [a.mu]. *)
Definition ServeHTTP (r : Request req.t) (a : Amplifier) : list wcall * Amplifier :=
  if Method r =? "POST" then
    match Body r with
    | inl err => ([http_Error err StatusBadRequest], a)
    | inr rq =>
        let '(e1, a1) := handlePower (req.Power rq) a in
        let '(e2, a2) := handleMute (req.Mute rq) a1 in
        let '(e3, a3) := handleSource (req.Source rq) a2 in
        (reported e1 ++ reported e2 ++ reported e3 ++ [json_Encode (state a3)], a3)%list
    end
  else ([json_Encode (state a)], a).

(** The [/source] endpoint of the earlier revision of the server.  Its
    [SendCommand] and command table are the ones above; it does not touch
    the state. *)
Module SourceEndpoint.

(** [func (a *Amplifier) HTTPSource(w, r)]: the [default] case of the
    switch reports the error and falls out of the switch with [c] still
    the zero [Command]. *)
Definition HTTPSource (r : Request string) (a : Amplifier) : list wcall * Amplifier :=
  match Body r with
  | inl err => ([http_Error err StatusBadRequest], a)
  | inr src =>
      let unknown :=
        [http_Error (errorString ("Unknown source: " ++ src)) StatusBadRequest] in
      let '(c, w) :=
        if src =? "A1" then (SetSourceA1, [])
        else if src =? "A2" then (SetSourceA2, [])
        else if src =? "A3" then (SetSourceA3, [])
        else if src =? "A4" then (SetSourceA4, [])
        else if src =? "D1" then (SetSourceD1, [])
        else if src =? "D2" then (SetSourceD2, [])
        else if src =? "D3" then (SetSourceD3, [])
        else if src =? "MP3" then (SetSourceMP3, [])
        else if src =? "Bluetooth" then (SetSourceBluetooth, [])
        else if src =? "USB" then (SetSourceUSBAudio, [])
        else if src =? "A1 Balanced" then (SetSourceA1Balanced, [])
        else (Command.mk "" "" "", unknown) in
      let '(err, a') := SendCommand c a in
      (w ++ reported err, a')%list
  end.

End SourceEndpoint.

(** ** Vocabulary of the specification *)

(** Whether the byte [c] occurs in [s]. *)
Fixpoint occurs (c : ascii) (s : string) : bool :=
  match s with
  | "" => false
  | String x s' => Ascii.eqb x c || occurs c s'
  end.

(** A two-digit code. *)
Definition twoDigits (s : string) : bool :=
  match s with
  | String a (String b "") => isDigit a && isDigit b
  | _ => false
  end.

(** A frame of the wire grammar, "#GG,NN[,DATA]" followed by a carriage
    return: two two-digit codes and an optional data field free of
    carriage returns. *)
Module Frame.
Record t : Set := mk { Group : string; Number : string; Data : option string }.

Definition valid (f : t) : bool :=
  twoDigits (Group f) && twoDigits (Number f) &&
  match Data f with
  | Some d => negb (occurs CR d)
  | None => true
  end.

Definition field (f : t) : string :=
  match Data f with
  | Some d => d
  | None => ""
  end.

(** The bytes of the frame on the wire. *)
Definition render (f : t) : string :=
  "#" ++ Group f ++ "," ++ Number f ++
  match Data f with
  | Some d => "," ++ d ++ CRs
  | None => CRs
  end.

(** The reply the frame stands for: data is the empty string when the
    field is absent. *)
Definition reply (f : t) : Reply.t := Reply.mk (Group f) (Number f) (field f).

(** The buffer holding the frames one after the other. *)
Definition buffer (fs : list t) : string :=
  fold_right (fun f acc => render f ++ acc) "" fs.
End Frame.

(** A valid command: two-digit group and number, data free of carriage
    returns and commas. *)
Definition validCommand (c : Command.t) : bool :=
  twoDigits (Command.Group c) && twoDigits (Command.Number c) &&
  negb (occurs CR (Command.Data c)) && negb (occurs "," (Command.Data c)).

(** The frame a command is written as. *)
Definition frameOfCommand (c : Command.t) : Frame.t :=
  Frame.mk (Command.Group c) (Command.Number c)
           (if Command.Data c =? "" then None else Some (Command.Data c)).

(** A frame is embedded in [buf]. *)
Definition embedsFrame (buf : string) : Prop :=
  exists pre f post, Frame.valid f = true /\ buf = pre ++ Frame.render f ++ post.

(** Deciding [embedsFrame]: a frame is embedded exactly where the matcher
    succeeds at some position. *)
Fixpoint matchesSomewhere (s : string) : bool :=
  match matchHere s with
  | Some _ => true
  | None => match s with
            | "" => false
            | String _ s' => matchesSomewhere s'
            end
  end.

(** The derived-reset rule as a property of a state. *)
Definition resetWhenOff (st : AmplifierState) : Prop :=
  Power st = false -> Mute st = false /\ Source st = "".

(** One step of the bridge: a reply applied by the ingestion loop, or a
    dispatcher handler called by an HTTP request. *)
Inductive step : Amplifier -> Amplifier -> Prop :=
| step_reply (r : Reply.t) a : step a (UpdateState r a)
| step_power (s : string) a : step a (snd (handlePower s a))
| step_mute (s : string) a : step a (snd (handleMute s a))
| step_source (s : string) a : step a (snd (handleSource s a)).

(** The states reachable from the all-zero initial state. *)
Inductive reachable : Amplifier -> Prop :=
| reach_init p : reachable (newAmplifier p)
| reach_step a a' : reachable a -> step a a' -> reachable a'.

(** The steps under which the reset rule is kept: a power reply, any
    reply applied while powered on, and the two gated handlers. *)
Inductive kept_step : Amplifier -> Amplifier -> Prop :=
| kept_power_reply (r : Reply.t) a :
    Reply.Group r = "02" -> Reply.Number r = "01" ->
    kept_step a (UpdateState r a)
| kept_reply_on (r : Reply.t) a :
    Power (state a) = true -> kept_step a (UpdateState r a)
| kept_mute (s : string) a : kept_step a (snd (handleMute s a))
| kept_source (s : string) a : kept_step a (snd (handleSource s a)).

Inductive kept_reachable : Amplifier -> Prop :=
| kept_init p : kept_reachable (newAmplifier p)
| kept_next a a' : kept_reachable a -> kept_step a a' -> kept_reachable a'.

(** The request of a POST whose body decodes to the fields given. *)
Definition postStatus (power mute source : string) : Request req.t :=
  mkRequest "POST" (inr (req.mk power mute source)).

Definition postSource (source : string) : Request string :=
  mkRequest "POST" (inr source).

(** The eleven source names of the dispatcher. *)
Definition sourceNames : list string :=
  [ "A1"; "A2"; "A3"; "A4"; "D1"; "D2"; "D3"; "MP3"; "Bluetooth"; "USB";
    "A1 Balanced" ].

(** ** Startup *)

(** How [main] leaves its start-up phase: [log.Fatal] with an error, or
    the amplifier handed to [Listen] and to the HTTP server.  [sent] is
    what the port had been handed by then. *)
Inductive started : Set :=
| fatal (err : error) (sent : list string)
| serving (a : Amplifier).

(** [func main()] up to [go amp.Listen()]: [NewAmplifier] (whose result
    is the argument: the error of [serial.Open], or the open port), then
    the three queries for the initial state, each followed by
    [log.Fatal] on error. *)
Definition main (opened : error + Port) : started :=
  match opened with
  | inl err => fatal err []
  | inr p =>
      let amp := newAmplifier p in
      match SendCommand GetPowerState amp with
      | (Some err, amp1) => fatal err (writes (port amp1))
      | (None, amp1) =>
          match SendCommand GetMuteState amp1 with
          | (Some err, amp2) => fatal err (writes (port amp2))
          | (None, amp2) =>
              match SendCommand GetSource amp2 with
              | (Some err, amp3) => fatal err (writes (port amp3))
              | (None, amp3) => serving amp3
              end
          end
      end
  end.

(** ** The earlier revision of the server

    The revision that has the [/source] endpoint.  Its command table,
    [sources], [validReply], [Reply.String] and [SendCommand] are those
    above; its state has the fields [Powered], [Muted], [Source], its
    dispatcher neither updates the state nor looks at it (but for
    "toggle"), and its [Listen] panics where [readUpdate] returns an
    error. *)
Module Rev1.

Record AmplifierState : Set := mkState {
  Powered : bool;
  Muted : bool;
  Source : string
}.

Record Amplifier : Set := mkAmp {
  port : Port;
  state : AmplifierState
}.

Definition SendCommand (cmd : Command.t) (a : Amplifier) : option error * Amplifier :=
  let (err, p) := Write (port a) (frameOf cmd) in
  (err, mkAmp p (state a)).

(** [func (a *Amplifier) UpdateState(r *Reply)] *)
Definition UpdateState (r : Reply.t) (a : Amplifier) : Amplifier :=
  let st := state a in
  if Reply.Group r =? "02" then
    if Reply.Number r =? "01" then
      let powered := Reply.Data r =? "1" in
      (* Powering off resets the muted state. *)
      if negb powered then mkAmp (port a) (mkState powered false (Source st))
      else mkAmp (port a) (mkState powered (Muted st) (Source st))
    else if Reply.Number r =? "03" then
      mkAmp (port a) (mkState (Powered st) (Reply.Data r =? "1") (Source st))
    else a
  else if Reply.Group r =? "04" then
    if Reply.Number r =? "01" then
      mkAmp (port a) (mkState (Powered st) (Muted st) (sources_at (Reply.Data r)))
    else a
  else a.

(** The values [log.Panicf] is called with in [Listen]. *)
Inductive panic : Set :=
| panicRead (err : error)                  (* "Read(): %v" *)
| panicInvalidReply (response : string).   (* "invalid reply format: %q" *)

(** Where [Listen] is after the reads delivered so far: it has
    panicked, or it is blocked in the next [Read]. *)
Inductive listening : Set :=
| panicked (v : panic) (a : Amplifier)
| blocked (a : Amplifier).

(** [func (a *Amplifier) Listen()] *)
Fixpoint Listen (reads : list ReadResult) (a : Amplifier) : listening :=
  match reads with
  | [] => blocked a
  | inl err :: _ => panicked (panicRead err) a
  | inr response :: reads' =>
      match FindAllStringSubmatch response with
      | [] => panicked (panicInvalidReply response) a
      | matches =>
          Listen reads' (fold_left (fun a' m => UpdateState (replyOf m) a') matches a)
      end
  end.

(** [func (a *Amplifier) handlePower(s string) error] *)
Definition handlePower (s : string) (a : Amplifier) : option error * Amplifier :=
  if s =? "on" then SendCommand SetPowerOn a
  else if s =? "off" then SendCommand SetPowerStandby a
  else if s =? "toggle" then
    if Powered (state a) then SendCommand SetPowerStandby a
    else SendCommand SetPowerOn a
  else if s =? "" then (None, a)
  else (Some (errorString
          ("Unexpected power state " ++ s ++ ", expected: on/off/toggle")), a).

(** [func (a *Amplifier) handleMute(s string) error] *)
Definition handleMute (s : string) (a : Amplifier) : option error * Amplifier :=
  if (s =? "on") || (s =? "muted") then SendCommand SetMuteOn a
  else if (s =? "off") || (s =? "unmuted") then SendCommand SetMuteOff a
  else if s =? "" then (None, a)
  else (Some (errorString
          ("Unexpected mute state " ++ s ++ ", expected: on/off/muted/unmuted")), a).

(** [func (a *Amplifier) handleSource(s string) error] *)
Definition handleSource (s : string) (a : Amplifier) : option error * Amplifier :=
  if s =? "A1" then SendCommand SetSourceA1 a
  else if s =? "A2" then SendCommand SetSourceA2 a
  else if s =? "A3" then SendCommand SetSourceA3 a
  else if s =? "A4" then SendCommand SetSourceA4 a
  else if s =? "D1" then SendCommand SetSourceD1 a
  else if s =? "D2" then SendCommand SetSourceD2 a
  else if s =? "D3" then SendCommand SetSourceD3 a
  else if s =? "MP3" then SendCommand SetSourceMP3 a
  else if s =? "Bluetooth" then SendCommand SetSourceBluetooth a
  else if s =? "USB" then SendCommand SetSourceUSBAudio a
  else if s =? "A1 Balanced" then SendCommand SetSourceA1Balanced a
  else if s =? "" then (None, a)
  else (Some (errorString ("Unknown source: " ++ s)), a).

Inductive wcall : Set :=
| http_Error (err : error) (code : nat)
| json_Encode (v : AmplifierState).

Definition statusOf (w : list wcall) : nat :=
  match w with
  | http_Error _ code :: _ => code
  | _ => StatusOK
  end.

Definition reported (o : option error) : list wcall :=
  match o with
  | Some err => [http_Error err StatusInternalServerError]
  | None => []
  end.

(** [func (a *Amplifier) ServeHTTP(w, r)]: the third handler is called
    as [a.handleSource(req.Mute)]. *)
Definition ServeHTTP (r : Request req.t) (a : Amplifier) : list wcall * Amplifier :=
  if Method r =? "POST" then
    match Body r with
    | inl err => ([http_Error err StatusBadRequest], a)
    | inr rq =>
        let '(e1, a1) := handlePower (req.Power rq) a in
        let '(e2, a2) := handleMute (req.Mute rq) a1 in
        let '(e3, a3) := handleSource (req.Mute rq) a2 in
        (reported e1 ++ reported e2 ++ reported e3 ++ [json_Encode (state a3)], a3)%list
    end
  else ([json_Encode (state a)], a).

End Rev1.

(** ** The first revision: one reply per read

    [validReply] is there the anchored pattern
    ^ # (\d\d) , (\d\d) (?: , (.* ) )? \r $  (written with spaces between
    its parts): [.] is any byte but the line feed, and [$], without the
    multi-line flag, is the end of the text.  The greedy star backs off
    until the carriage return it leaves is the last byte, so the data is
    all that stands between the comma and that last byte. *)
Module Rev0.

Definition LF : ascii := "010"%char.

(** [s] without its last byte, and that byte. *)
Fixpoint chopLast (s : string) : option (string * ascii) :=
  match s with
  | "" => None
  | String c s' =>
      match chopLast s' with
      | None => Some ("", c)
      | Some (d, l) => Some (String c d, l)
      end
  end.

(** [validReply.FindStringSubmatch(response)]: the submatches of the
    match of the whole text, if there is one. *)
Definition FindStringSubmatch (s : string) : option (list string) :=
  match s with
  | String h (String g1 (String g2 (String c (String n1 (String n2 t))))) =>
      if Ascii.eqb h "#" && isDigit g1 && isDigit g2 && Ascii.eqb c ","
         && isDigit n1 && isDigit n2
      then
        let G := String g1 (String g2 "") in
        let N := String n1 (String n2 "") in
        match t with
        | String x t' =>
            if Ascii.eqb x "," then
              match chopLast t' with
              | Some (d, l) =>
                  if Ascii.eqb l CR && negb (occurs LF d)
                  then Some [s; G; N; d] else None
              | None => None
              end
            else if Ascii.eqb x CR then
              match t' with
              | "" => Some [s; G; N; ""]
              | _ => None
              end
            else None
        | "" => None
        end
      else None
  | _ => None
  end.

(** [func (a *Amplifier) Read()], which returns a reply or an error, on
    what [a.port.Read(buf)] returned.  Its error is formatted with [%s]. *)
Definition Read (rd : ReadResult) : error + Reply.t :=
  match rd with
  | inl err => inl err
  | inr response =>
      match FindStringSubmatch response with
      | None => inl (errorString ("invalid reply format: " ++ response))
      | Some matches => inr (replyOf matches)
      end
  end.

End Rev0.

(** ** Vocabulary of the further properties *)

(** What one read contributes to the ingestion loop: the replies it
    carries, and the error it makes [readUpdate] return. *)
Definition repliesOfRead (rd : ReadResult) : list Reply.t :=
  match rd with
  | inl _ => []
  | inr response => decode response
  end.

Definition errorsOfRead (rd : ReadResult) : list error :=
  match rd with
  | inl err => [err]
  | inr response =>
      match decode response with
      | [] => [invalidReplyFormat response]
      | _ => []
      end
  end.

(** The port of [a'] has been handed what the port of [a] had, and at
    most [n] frames more. *)
Definition appendsAtMost (n : nat) (a a' : Amplifier) : Prop :=
  exists l, writes (port a') = (writes (port a) ++ l)%list /\ List.length l <= n.

(** The errors of an optional error. *)
Definition errorsOf (o : option error) : list error :=
  match o with
  | Some err => [err]
  | None => []
  end.

(** The accepted arguments of the dispatcher besides the empty one. *)
Definition powerWords : list string := [ "on"; "off"; "toggle" ].
Definition muteWords : list string := [ "on"; "muted"; "off"; "unmuted" ].

(** Whether a mute word asks for muting. *)
Definition mutes (s : string) : bool := (s =? "on") || (s =? "muted").

(** The three queries of the start-up, as written to the port. *)
Definition initialQueries : list string :=
  [ frameOf GetPowerState; frameOf GetMuteState; frameOf GetSource ].



(** The value the earlier [Listen] panics with on a read. *)
Definition panicOf (rd : ReadResult) : Rev1.panic :=
  match rd with
  | inl err => Rev1.panicRead err
  | inr response => Rev1.panicInvalidReply response
  end.

(** A frame without its carriage return. *)
Definition frameBody (f : Frame.t) : string :=
  "#" ++ Frame.Group f ++ "," ++ Frame.Number f ++
  match Frame.Data f with
  | Some d => "," ++ d
  | None => ""
  end.

(** The frames the first revision takes: the data may hold carriage
    returns, but no line feed. *)
Definition rev0Frame (f : Frame.t) : bool :=
  twoDigits (Frame.Group f) && twoDigits (Frame.Number f) &&
  match Frame.Data f with
  | Some d => negb (occurs Rev0.LF d)
  | None => true
  end.

(** The descriptions of the reply interpreter as a table keyed by group
    and number. *)
Definition descriptions : list (string * string * string) :=
  [ ("00", "01", "Command group unknown");
    ("00", "02", "Command number unknown");
    ("00", "03", "Command data error");
    ("00", "04", "Command not available");
    ("02", "01", "Current power state");
    ("02", "03", "Current mute state");
    ("04", "01", "Current source");
    ("14", "01", "Protocol Version");
    ("14", "02", "Get Firmware Version") ].

(** The description of a reply: its entry in the table, or else the
    text that names it unknown and shows its three fields. *)
Definition describe (r : Reply.t) : string :=
  match find (fun e => (fst (fst e) =? Reply.Group r) && (snd (fst e) =? Reply.Number r))
             descriptions with
  | Some e => snd e
  | None => "Unknown reply: " ++ Reply.Group r ++ "," ++ Reply.Number r
            ++ "," ++ Reply.Data r
  end.

(** * Properties *)

(** ** Strings *)

Lemma append_empty_r (s : string) : s ++ "" = s.
Proof. induction s; simpl; congruence. Qed.

Lemma append_assoc (s t u : string) : (s ++ t) ++ u = s ++ (t ++ u).
Proof. induction s; simpl; congruence. Qed.

Lemma twoDigits_inv (s : string) :
  twoDigits s = true ->
  exists a b, s = String a (String b "") /\ isDigit a = true /\ isDigit b = true.
Proof.
  destruct s as [|a [|b [|? ?]]]; simpl; try discriminate.
  intros H. apply andb_true_iff in H. eauto.
Qed.

(** ** The matcher *)

Lemma spanNotCR_stop (d rest : string) :
  occurs CR d = false ->
  spanNotCR (d ++ String CR rest) = (d, String CR rest).
Proof.
  induction d as [|c d IH]; simpl; intros H.
  - reflexivity.
  - apply orb_false_iff in H as [Hc Hd].
    rewrite Hc, (IH Hd). reflexivity.
Qed.

Lemma spanNotCR_spec (s d r : string) :
  spanNotCR s = (d, r) ->
  s = d ++ r /\ occurs CR d = false /\
  (r = "" \/ exists r', r = String CR r').
Proof.
  revert d r. induction s as [|c s IH]; simpl; intros d r.
  - intros [= <- <-]. auto.
  - destruct (Ascii.eqb_spec c CR) as [->|Hc].
    + intros [= <- <-]. simpl. eauto.
    + destruct (spanNotCR s) as [d' r'] eqn:E. intros [= <- <-].
      destruct (IH _ _ eq_refl) as (-> & Ho & Hr).
      simpl. apply Ascii.eqb_neq in Hc. rewrite Hc, Ho. auto.
Qed.

(** A valid frame at the head of the input is matched whole, with its
    fields as submatches. *)
Lemma matchHere_frame (f : Frame.t) (rest : string) :
  Frame.valid f = true ->
  matchHere (Frame.render f ++ rest)
  = Some ([Frame.render f; Frame.Group f; Frame.Number f; Frame.field f], rest).
Proof.
  destruct f as [G N D]. unfold Frame.valid, Frame.render, Frame.field. simpl.
  intros H. apply andb_true_iff in H as [H HD]. apply andb_true_iff in H as [HG HN].
  apply twoDigits_inv in HG as (g1 & g2 & -> & Hg1 & Hg2).
  apply twoDigits_inv in HN as (n1 & n2 & -> & Hn1 & Hn2).
  simpl. rewrite Hg1, Hg2, Hn1, Hn2. simpl.
  destruct D as [d|]; simpl.
  - apply negb_true_iff in HD.
    rewrite append_assoc. simpl.
    rewrite (spanNotCR_stop d rest HD). reflexivity.
  - reflexivity.
Qed.

Ltac use_digits :=
  repeat match goal with
         | H : isDigit _ = true |- _ => rewrite H; clear H
         end.

(** Whatever the matcher accepts is a valid frame followed by the rest. *)
Lemma matchHere_sound (s : string) m rest :
  matchHere s = Some (m, rest) ->
  exists f, Frame.valid f = true /\ s = Frame.render f ++ rest.
Proof.
  unfold matchHere.
  destruct s as [|h [|g1 [|g2 [|c [|n1 [|n2 t]]]]]]; try discriminate.
  destruct (_ && _) eqn:E; [|discriminate].
  repeat (apply andb_true_iff in E as [E ?]).
  apply Ascii.eqb_eq in E. subst h.
  match goal with H : Ascii.eqb c _ = true |- _ => apply Ascii.eqb_eq in H; subst c end.
  destruct t as [|x t']; [discriminate|].
  destruct (Ascii.eqb_spec x ",") as [->|Hx].
  - destruct (spanNotCR t') as [d r] eqn:Es.
    apply spanNotCR_spec in Es as (-> & Ho & Hr).
    destruct r as [|y r']; [discriminate|]. intros [= _ <-].
    destruct Hr as [Hr|(r'' & [= -> ->])]; [discriminate|].
    exists (Frame.mk (String g1 (String g2 "")) (String n1 (String n2 "")) (Some d)).
    unfold Frame.valid, Frame.render. simpl.
    rewrite Ho. split.
    + use_digits. reflexivity.
    + rewrite append_assoc. reflexivity.
  - destruct (Ascii.eqb_spec x CR) as [->|]; [|discriminate]. intros [= _ <-].
    exists (Frame.mk (String g1 (String g2 "")) (String n1 (String n2 "")) None).
    unfold Frame.valid, Frame.render. simpl. split; [|reflexivity].
    use_digits. reflexivity.
Qed.

(** The loop of [FindAllStringSubmatch], one iteration unfolded. *)
Lemma FindAll_step (s : string) :
  FindAllStringSubmatch s =
  match matchHere s with
  | Some (m, rest) => m :: FindAllStringSubmatch rest
  | None => match s with
            | "" => []
            | String _ s' => FindAllStringSubmatch s'
            end
  end.
Proof.
  funelim (FindAllStringSubmatch s);
    try match goal with E : matchHere _ = _ |- _ => rewrite E end;
    reflexivity.
Qed.

Lemma FindAll_empty : FindAllStringSubmatch "" = [].
Proof. rewrite FindAll_step. reflexivity. Qed.

(** Matching a buffer of frames peels them off one by one. *)
Lemma FindAll_buffer (fs : list Frame.t) :
  forallb Frame.valid fs = true ->
  FindAllStringSubmatch (Frame.buffer fs)
  = map (fun f => [Frame.render f; Frame.Group f; Frame.Number f; Frame.field f]) fs.
Proof.
  induction fs as [|f fs IH]; intros H.
  - apply FindAll_empty.
  - cbn [forallb] in H. apply andb_true_iff in H as [Hf Hfs].
    change (Frame.buffer (f :: fs)) with (Frame.render f ++ Frame.buffer fs).
    rewrite FindAll_step, (matchHere_frame f _ Hf), (IH Hfs). reflexivity.
Qed.

Lemma decode_buffer (fs : list Frame.t) :
  forallb Frame.valid fs = true ->
  decode (Frame.buffer fs) = map Frame.reply fs.
Proof.
  intros H. unfold decode. rewrite (FindAll_buffer fs H), map_map.
  apply map_ext. intros f. reflexivity.
Qed.

(** With no frame embedded, no position of the buffer matches. *)
Lemma FindAll_no_frame (s : string) :
  (forall pre post, s = pre ++ post -> matchHere post = None) ->
  FindAllStringSubmatch s = [].
Proof.
  induction s as [|c s IH]; intros H.
  - apply FindAll_empty.
  - rewrite FindAll_step, (H "" (String c s) eq_refl).
    apply IH. intros pre post ->. apply (H (String c pre) post). reflexivity.
Qed.

Lemma no_frame_no_match (buf : string) :
  ~ embedsFrame buf ->
  forall pre post, buf = pre ++ post -> matchHere post = None.
Proof.
  intros Hno pre post ->.
  destruct (matchHere post) as [[m rest]|] eqn:E; [|reflexivity].
  exfalso. apply Hno.
  destruct (matchHere_sound post m rest E) as (f & Hf & ->).
  exists pre, f, rest. auto.
Qed.

(** The loop of [readUpdate] applies the decoded replies in order. *)
Lemma readUpdate_matches (response : string) (a : Amplifier) :
  FindAllStringSubmatch response <> [] ->
  readUpdate (inr response) a
  = (None, fold_left (fun a' r => UpdateState r a') (decode response) a).
Proof.
  intros Hne. unfold readUpdate, decode.
  destruct (FindAllStringSubmatch response) as [|m ms] eqn:E; [contradiction|].
  f_equal. generalize (m :: ms) a. clear.
  induction l as [|x l IH]; intros a; simpl; auto.
Qed.

Lemma readUpdate_no_match (response : string) (a : Amplifier) :
  FindAllStringSubmatch response = [] ->
  readUpdate (inr response) a = (Some (invalidReplyFormat response), a).
Proof. intros E. unfold readUpdate. rewrite E. reflexivity. Qed.

Lemma frameOf_render (c : Command.t) :
  frameOf c = Frame.render (frameOfCommand c).
Proof.
  unfold frameOf, Frame.render, frameOfCommand. simpl.
  destruct (Command.Data c =? ""); simpl; now rewrite !append_assoc.
Qed.

(** ** The claims *)

(** C2 (frame symmetry).  For every valid command (two-digit group and
    number, data free of carriage returns and commas), decoding the frame
    that [SendCommand] writes yields exactly one reply, carrying the
    command's group, number and data; the data is the empty string when
    the command has none. *)
Theorem encode_decode_roundtrip (c : Command.t) :
  validCommand c = true ->
  decode (frameOf c)
  = [Reply.mk (Command.Group c) (Command.Number c) (Command.Data c)].
Proof.
  intros H. unfold validCommand in H.
  repeat (apply andb_true_iff in H as [H ?]).
  assert (Hv : forallb Frame.valid [frameOfCommand c] = true).
  { simpl. unfold Frame.valid, frameOfCommand. simpl.
    rewrite andb_true_r. rewrite H.
    match goal with E : twoDigits (Command.Number c) = true |- _ => rewrite E end.
    destruct (Command.Data c =? ""); simpl; auto. }
  pose proof (decode_buffer [frameOfCommand c] Hv) as D.
  change (Frame.buffer [frameOfCommand c])
    with (Frame.render (frameOfCommand c) ++ "") in D.
  rewrite append_empty_r, <- frameOf_render in D. rewrite D.
  unfold Frame.reply, Frame.field, frameOfCommand. simpl.
  destruct (String.eqb_spec (Command.Data c) "") as [->|]; reflexivity.
Qed.

Lemma encode_decode_roundtrip_witness :
  decode (frameOf SetSourceBluetooth) = [Reply.mk "03" "04" "14"]
  /\ decode (frameOf GetPowerState) = [Reply.mk "01" "01" ""].
Proof.
  split.
  - apply (encode_decode_roundtrip SetSourceBluetooth). reflexivity.
  - apply (encode_decode_roundtrip GetPowerState). reflexivity.
Defined.

(** C3 (concatenated frames).  For every list of N valid frames, decoding
    the buffer that holds them one after the other gives exactly N
    replies, the reply of each frame, in the order of the frames; when
    the list is not empty [readUpdate] returns no error and has applied
    these replies to the state in that order. *)
Theorem decode_concatenated_frames (fs : list Frame.t) :
  forallb Frame.valid fs = true ->
  decode (Frame.buffer fs) = map Frame.reply fs
  /\ List.length (decode (Frame.buffer fs)) = List.length fs
  /\ (fs <> [] ->
      forall a, readUpdate (inr (Frame.buffer fs)) a
                = (None, fold_left (fun a' r => UpdateState r a') (map Frame.reply fs) a)).
Proof.
  intros H. pose proof (decode_buffer fs H) as D.
  split; [exact D|]. split.
  - rewrite D. apply length_map.
  - intros Hne a. rewrite readUpdate_matches, D; [reflexivity|].
    rewrite (FindAll_buffer fs H). destruct fs; [contradiction|discriminate].
Qed.

Lemma decode_concatenated_frames_witness :
  let fs := [Frame.mk "02" "01" (Some "1"); Frame.mk "04" "01" None;
             Frame.mk "02" "03" (Some "0,#x")] in
  decode (Frame.buffer fs) = map Frame.reply fs
  /\ List.length (decode (Frame.buffer fs)) = 3
  /\ readUpdate (inr (Frame.buffer fs)) (newAmplifier (mkPort [] []))
     = (None, mkAmp (mkPort [] []) (mkState true false "")).
Proof.
  intros fs.
  destruct (decode_concatenated_frames fs) as (D & L & R); [reflexivity|].
  split; [exact D|]. split; [exact L|].
  rewrite R; [reflexivity | discriminate].
Defined.

(** C5 (malformed buffer).  For every non-empty buffer in which no frame
    of the grammar is embedded, decoding produces no reply, [readUpdate]
    reports the invalid-reply-format error and leaves the amplifier as it
    was, and [Listen] logs that error and goes on with the next read. *)
Theorem malformed_buffer_rejected (buf : string) :
  buf <> "" ->
  ~ embedsFrame buf ->
  decode buf = []
  /\ (forall a, readUpdate (inr buf) a = (Some (invalidReplyFormat buf), a))
  /\ (forall reads a log,
        Listen (inr buf :: reads) a log
        = Listen reads a (log ++ [invalidReplyFormat buf])%list).
Proof.
  intros _ Hno.
  assert (E : FindAllStringSubmatch buf = [])
    by (apply FindAll_no_frame, no_frame_no_match, Hno).
  split; [unfold decode; now rewrite E|].
  split.
  - intros a. now apply readUpdate_no_match.
  - intros reads a log. cbn [Listen]. now rewrite readUpdate_no_match.
Qed.

Lemma matchesSomewhere_step (s : string) :
  matchesSomewhere s =
  match matchHere s with
  | Some _ => true
  | None => match s with
            | "" => false
            | String _ s' => matchesSomewhere s'
            end
  end.
Proof. destruct s; reflexivity. Qed.

Lemma embedsFrame_matches (buf : string) :
  embedsFrame buf -> matchesSomewhere buf = true.
Proof.
  intros (pre & f & post & Hf & ->).
  induction pre as [|c pre IH].
  - cbn [append]. now rewrite matchesSomewhere_step, (matchHere_frame f post Hf).
  - change (String c pre ++ Frame.render f ++ post)
      with (String c (pre ++ Frame.render f ++ post)).
    rewrite matchesSomewhere_step.
    destruct (matchHere _); [reflexivity | exact IH].
Qed.

Lemma malformed_buffer_rejected_witness :
  decode "garbage" = []
  /\ readUpdate (inr "garbage") (newAmplifier (mkPort [] []))
     = (Some (invalidReplyFormat "garbage"), newAmplifier (mkPort [] [])).
Proof.
  destruct (malformed_buffer_rejected "garbage") as (D & R & _).
  - discriminate.
  - intros H. apply embedsFrame_matches in H. discriminate H.
  - split; [exact D | apply R].
Defined.

(** ** Reply interpreter *)

(** With data present the rendering ends in the raw data of the reply,
    whatever the group and number. *)
Lemma Reply_String_raw_data (r : Reply.t) :
  Reply.Data r <> "" ->
  exists desc, Reply_String r = desc ++ ": " ++ Reply.Data r.
Proof.
  intros H. apply String.eqb_neq in H. unfold Reply_String.
  destruct (if Reply.Group r =? "00" then _ else _) as [desc data].
  rewrite H. simpl. eauto.
Qed.

(** C6 (resolved source in the rendering).  The reply (04, 01, "14") is
    rendered with its raw data, "Current source: 14", and not with the
    source name the interpreter has looked up, "Current source:
    Bluetooth". *)
Theorem Reply_String_source_unresolved :
  Reply_String (Reply.mk "04" "01" "14") = "Current source: 14"
  /\ Reply_String (Reply.mk "04" "01" "14") <> "Current source: " ++ sources_at "14"
  /\ sources_at "14" = "Bluetooth".
Proof. repeat split. discriminate. Qed.

(** ** Device state store *)

(** C4 (power-off reply).  Applying the reply (02, 01, "0") leaves
    [Power], [Mute] false and [Source] empty, whatever the state before;
    the update is one application of [UpdateState] and the port is not
    touched. *)
Theorem power_off_reply_resets (a : Amplifier) :
  UpdateState (Reply.mk "02" "01" "0") a = mkAmp (port a) (mkState false false "").
Proof. reflexivity. Qed.

(** A power reply establishes the reset rule. *)
Lemma UpdateState_power_reset (r : Reply.t) (a : Amplifier) :
  Reply.Group r = "02" -> Reply.Number r = "01" ->
  resetWhenOff (state (UpdateState r a)).
Proof.
  intros HG HN. unfold UpdateState, resetWhenOff. rewrite HG, HN. cbn.
  destruct (Reply.Data r =? "1"); cbn; intros E; [discriminate | auto].
Qed.

(** While powered on, no reply can break the rule: only a power reply
    changes [Power], and it resets. *)
Lemma UpdateState_on_preserves (r : Reply.t) (a : Amplifier) :
  Power (state a) = true ->
  resetWhenOff (state (UpdateState r a)).
Proof.
  intros Hon. unfold UpdateState, resetWhenOff.
  destruct (Reply.Group r =? "02").
  - destruct (Reply.Number r =? "01").
    + cbn. destruct (Reply.Data r =? "1"); cbn; intros E; [discriminate | auto].
    + destruct (Reply.Number r =? "03"); cbn; intros E; congruence.
  - destruct (Reply.Group r =? "04"); [destruct (Reply.Number r =? "01")|];
      cbn; intros E; congruence.
Qed.

(** ** Command dispatcher *)

Lemma SendCommand_state (c : Command.t) (a : Amplifier) :
  state (snd (SendCommand c a)) = state a.
Proof. unfold SendCommand, Write. destruct (faults (port a)); reflexivity. Qed.

Lemma SendCommand_writes (c : Command.t) (a : Amplifier) :
  writes (port (snd (SendCommand c a))) = (writes (port a) ++ [frameOf c])%list.
Proof. unfold SendCommand, Write. destruct (faults (port a)); reflexivity. Qed.

Lemma handleMute_off (s : string) (a : Amplifier) :
  Power (state a) = false -> handleMute s a = (None, a).
Proof. intros H. unfold handleMute. rewrite H. reflexivity. Qed.

Lemma handleSource_off (s : string) (a : Amplifier) :
  Power (state a) = false -> handleSource s a = (None, a).
Proof. intros H. unfold handleSource. rewrite H. reflexivity. Qed.

(** [handleMute] and [handleSource] never change [Power]. *)
Lemma handleMute_power (s : string) (a : Amplifier) :
  Power (state (snd (handleMute s a))) = Power (state a).
Proof.
  unfold handleMute.
  destruct (negb _); [reflexivity|].
  repeat (destruct (_ || _); [now rewrite SendCommand_state|]).
  destruct (s =? ""); reflexivity.
Qed.

Lemma handleSource_power (s : string) (a : Amplifier) :
  Power (state (snd (handleSource s a))) = Power (state a).
Proof.
  unfold handleSource.
  destruct (negb _); [reflexivity|].
  repeat (destruct (s =? _); [now rewrite SendCommand_state|]).
  destruct (s =? ""); reflexivity.
Qed.

(** C10 (gating on power).  Whenever the stored [Power] is false,
    [handleMute] and [handleSource] return nil for every input string,
    valid or not: no command is handed to the port, no error is reported
    and the amplifier (state and port) is unchanged. *)
Theorem handlers_gated_when_off (a : Amplifier) (s : string) :
  Power (state a) = false ->
  handleMute s a = (None, a) /\ handleSource s a = (None, a).
Proof. intros H. split; [now apply handleMute_off | now apply handleSource_off]. Qed.

Lemma handlers_gated_when_off_witness :
  let a := newAmplifier (mkPort [] []) in
  handleMute "garbage" a = (None, a) /\ handleSource "A9" a = (None, a).
Proof.
  intros a. split.
  - apply (handlers_gated_when_off a "garbage"). reflexivity.
  - apply (handlers_gated_when_off a "A9"). reflexivity.
Defined.

(** An error out of [handleMute] or [handleSource] that is not the
    port's means the amplifier is powered on. *)
Lemma handler_error_needs_power (s : string) (a : Amplifier) (e : error) :
  fst (handleMute s a) = Some e \/ fst (handleSource s a) = Some e ->
  Power (state a) = true.
Proof.
  destruct (Power (state a)) eqn:E; [reflexivity|].
  rewrite (handleMute_off s a E), (handleSource_off s a E).
  intros [H|H]; discriminate.
Qed.

Lemma handlePower_toggle (a : Amplifier) :
  handlePower "toggle" a
  = if Power (state a) then SendCommand SetPowerStandby (setPower false a)
    else SendCommand SetPowerOn (setPower true a).
Proof. reflexivity. Qed.

(** C7 (toggle twice).  Two dispatches of the power intent "toggle" from
    a state with [Power] false hand the port the frame of [SetPowerOn]
    and then the frame of [SetPowerStandby]: each call sends the
    complement of the [Power] it finds, and flips it. *)
Theorem toggle_twice (a : Amplifier) :
  Power (state a) = false ->
  let a1 := snd (handlePower "toggle" a) in
  let a2 := snd (handlePower "toggle" a1) in
  writes (port a1) = (writes (port a) ++ [frameOf SetPowerOn])%list
  /\ Power (state a1) = true
  /\ writes (port a2)
     = (writes (port a) ++ [frameOf SetPowerOn; frameOf SetPowerStandby])%list
  /\ Power (state a2) = false.
Proof.
  intros H. cbn zeta.
  assert (E1 : handlePower "toggle" a = SendCommand SetPowerOn (setPower true a)).
  { now rewrite handlePower_toggle, H. }
  assert (P1 : Power (state (snd (handlePower "toggle" a))) = true).
  { now rewrite E1, SendCommand_state. }
  assert (E2 : handlePower "toggle" (snd (handlePower "toggle" a))
               = SendCommand SetPowerStandby
                   (setPower false (snd (handlePower "toggle" a)))).
  { now rewrite (handlePower_toggle (snd (handlePower "toggle" a))), P1. }
  repeat split.
  - now rewrite E1, SendCommand_writes.
  - exact P1.
  - rewrite E2, SendCommand_writes. cbn [setPower port].
    rewrite E1, SendCommand_writes. cbn [setPower port].
    now rewrite <- app_assoc.
  - now rewrite E2, SendCommand_state.
Qed.

Lemma toggle_twice_witness :
  let a := newAmplifier (mkPort [] [Some (errorString "i/o timeout")]) in
  writes (port (snd (handlePower "toggle" (snd (handlePower "toggle" a)))))
  = [frameOf SetPowerOn; frameOf SetPowerStandby].
Proof.
  intros a.
  destruct (toggle_twice a) as (_ & _ & W & _); [reflexivity|].
  exact W.
Defined.

(** ** The reset rule over the reachable states *)

Lemma handleMute_keeps (s : string) (a : Amplifier) :
  resetWhenOff (state a) -> resetWhenOff (state (snd (handleMute s a))).
Proof.
  intros Inv. destruct (Power (state a)) eqn:E.
  - intros Off. rewrite handleMute_power in Off. congruence.
  - now rewrite (handleMute_off s a E).
Qed.

Lemma handleSource_keeps (s : string) (a : Amplifier) :
  resetWhenOff (state a) -> resetWhenOff (state (snd (handleSource s a))).
Proof.
  intros Inv. destruct (Power (state a)) eqn:E.
  - intros Off. rewrite handleSource_power in Off. congruence.
  - now rewrite (handleSource_off s a E).
Qed.

Lemma kept_step_keeps (a a' : Amplifier) :
  kept_step a a' -> resetWhenOff (state a) -> resetWhenOff (state a').
Proof.
  intros St Inv. destruct St.
  - now apply UpdateState_power_reset.
  - now apply UpdateState_on_preserves.
  - now apply handleMute_keeps.
  - now apply handleSource_keeps.
Qed.

(** C1, as the claim states it, fails: a mute reply applied to the
    initial state gives a reachable state with [Power] false and [Mute]
    true. *)
Lemma reset_rule_not_invariant :
  ~ (forall a, reachable a -> resetWhenOff (state a)).
Proof.
  intros H.
  pose (a0 := newAmplifier (mkPort [] [])).
  assert (R : reachable (UpdateState (Reply.mk "02" "03" "1") a0))
    by (eapply reach_step; [apply reach_init | apply step_reply]).
  destruct (H _ R eq_refl) as [M _]. discriminate M.
Qed.

(** C1, amended.  [Power = false] implies [Mute = false] and [Source]
    empty in the initial state and in every state reached from it by
    power replies (02, 01), by replies of any kind applied while [Power]
    is true, and by calls of [handleMute] and [handleSource]. *)
Theorem reset_rule_kept (a : Amplifier) :
  kept_reachable a -> resetWhenOff (state a).
Proof.
  induction 1 as [p | a a' _ IH St].
  - intros _. split; reflexivity.
  - exact (kept_step_keeps a a' St IH).
Qed.

Lemma reset_rule_kept_witness :
  let a0 := newAmplifier (mkPort [] []) in
  let a1 := UpdateState (Reply.mk "02" "01" "1") a0 in
  let a2 := UpdateState (Reply.mk "02" "03" "1") a1 in
  let a3 := snd (handleSource "Bluetooth" a2) in
  let a4 := UpdateState (Reply.mk "02" "01" "0") a3 in
  kept_reachable a4 /\ resetWhenOff (state a4).
Proof.
  intros a0 a1 a2 a3 a4.
  assert (R : kept_reachable a4).
  { apply kept_next with a3; [|apply kept_power_reply; reflexivity].
    apply kept_next with a2; [|apply kept_source].
    apply kept_next with a1; [|apply kept_reply_on; reflexivity].
    apply kept_next with a0; [|apply kept_power_reply; reflexivity].
    apply kept_init. }
  split; [exact R | exact (reset_rule_kept a4 R)].
Defined.

(** ** HTTP surface *)

Lemma handleMute_empty (a : Amplifier) : handleMute "" a = (None, a).
Proof. unfold handleMute. destruct (Power (state a)); reflexivity. Qed.

Lemma handleSource_A9 (a : Amplifier) :
  handleSource "A9" a
  = (if Power (state a) then Some (errorString "Unknown source: A9") else None, a).
Proof. unfold handleSource. destruct (Power (state a)); reflexivity. Qed.

(** C8, as the claim states it, fails: with [Power] false the request
    draws no error at all; the response is the status body alone. *)
Lemma status_unknown_source_off_no_error :
  ~ (exists err code,
       In (http_Error err code)
          (fst (ServeHTTP (postStatus "" "" "A9") (newAmplifier (mkPort [] []))))).
Proof.
  intros (err & code & [H|[]]). discriminate H.
Qed.

(** C8, amended.  For a POST on [/status] whose body decodes to Source
    "A9" with Power and Mute empty: when the stored [Power] is true the
    handler reports the source error (500, "Unknown source: A9") and then
    writes the JSON encoding of the state; when it is false the source
    field is ignored and only the JSON encoding is written.  In both
    cases the amplifier, state and port, is unchanged. *)
Theorem status_unknown_source (a : Amplifier) :
  ServeHTTP (postStatus "" "" "A9") a
  = (if Power (state a)
     then [http_Error (errorString "Unknown source: A9") StatusInternalServerError;
           json_Encode (state a)]
     else [json_Encode (state a)],
     a).
Proof.
  unfold ServeHTTP, postStatus. cbn [Method Body String.eqb Ascii.eqb Bool.eqb req.Power req.Mute req.Source].
  change (handlePower "" a) with (@None error, a). cbn iota.
  rewrite handleMute_empty, handleSource_A9.
  destruct (Power (state a)); reflexivity.
Qed.

(** C9 on the code.  A POST on [/source] with the unknown name "A9" is
    answered 400, and the handler then still calls [SendCommand] with the
    zero command: the bytes "#," and a carriage return go to the port. *)
Theorem HTTPSource_unknown_still_sends (a : Amplifier) :
  statusOf (fst (SourceEndpoint.HTTPSource (postSource "A9") a)) = StatusBadRequest
  /\ writes (port (snd (SourceEndpoint.HTTPSource (postSource "A9") a)))
     = (writes (port a) ++ [frameOf (Command.mk "" "" "")])%list
  /\ frameOf (Command.mk "" "" "") = "#," ++ CRs.
Proof.
  unfold SourceEndpoint.HTTPSource, postSource, SendCommand, Write. cbn.
  destruct (faults (port a)); repeat split; reflexivity.
Qed.

(** The same holds of every name outside the eleven, the empty one
    included. *)
Lemma HTTPSource_unknown (src : string) (a : Amplifier) :
  ~ In src sourceNames ->
  statusOf (fst (SourceEndpoint.HTTPSource (postSource src) a)) = StatusBadRequest
  /\ writes (port (snd (SourceEndpoint.HTTPSource (postSource src) a)))
     = (writes (port a) ++ [frameOf (Command.mk "" "" "")])%list.
Proof.
  intros H. unfold SourceEndpoint.HTTPSource, postSource. cbn [Body].
  repeat match goal with
         | |- context [src =? ?n] =>
             destruct (String.eqb_spec src n) as [->|_];
             [exfalso; apply H; simpl; tauto|]
         end.
  unfold SendCommand, Write. destruct (faults (port a)); split; reflexivity.
Qed.

(** X27.  Each of the eleven names hands exactly one frame to the port, the
    frame of a source command, and draws no 400. *)
Lemma HTTPSource_known (src : string) (a : Amplifier) :
  In src sourceNames ->
  exists data,
    writes (port (snd (SourceEndpoint.HTTPSource (postSource src) a)))
    = (writes (port a) ++ [frameOf (Command.mk "03" "04" data)])%list
    /\ sources_at data = src
    /\ fst (SourceEndpoint.HTTPSource (postSource src) a)
       = reported (fst (SendCommand (Command.mk "03" "04" data) a)).
Proof.
  intros H. simpl in H.
  repeat (destruct H as [<-|H];
          [eexists; unfold SourceEndpoint.HTTPSource, postSource;
           cbn [Body String.eqb Ascii.eqb Bool.eqb];
           unfold SendCommand, Write; destruct (faults (port a));
           repeat split; reflexivity|]).
  destruct H.
Qed.

(** * Further properties of the code *)

(** ** The table of sources *)

Lemma sources_at_cases (k : string) :
  sources_at k = "" /\ ~ In k (map fst sources)
  \/ In (k, sources_at k) sources.
Proof.
  unfold sources_at, sources. cbn [find fst snd].
  repeat match goal with
         | |- context [?c =? k] =>
             destruct (String.eqb_spec c k) as [<-|?];
             [right; simpl; tauto|]
         end.
  left. split; [reflexivity|]. simpl. intuition congruence.
Qed.

(** X1.  Indexing [sources] gives a name exactly for the eleven codes of the
    table, the name the table holds for the code, and the empty string
    for every other key; no two codes share a name. *)
Theorem sources_at_table (k : string) :
  (forall v, In (k, v) sources -> sources_at k = v /\ v <> "")
  /\ (~ In k (map fst sources) -> sources_at k = "")
  /\ (forall k', sources_at k = sources_at k' -> sources_at k <> "" -> k = k').
Proof.
  split; [|split].
  - intros v H. simpl in H.
    repeat (destruct H as [[= <- <-]|H]; [split; [reflexivity|discriminate]|]).
    destruct H.
  - intros H. destruct (sources_at_cases k) as [[E _]|I]; [exact E|].
    exfalso. apply H. apply (in_map fst) in I. exact I.
  - intros k' E Hne.
    destruct (sources_at_cases k) as [[E0 _]|I]; [congruence|].
    destruct (sources_at_cases k') as [[E0 _]|I']; [congruence|].
    rewrite <- E in I'. revert I I'. generalize (sources_at k). intros v I I'.
    simpl in I, I'.
    repeat (destruct I as [[= <- <-]|I];
            [repeat (destruct I' as [E'|I']; [congruence|]); destruct I'|]).
    destruct I.
Qed.

Lemma sources_at_table_witness :
  sources_at "16" = "USB" /\ sources_at "99" = "" /\ "14" = "14".
Proof.
  destruct (sources_at_table "16") as (H1 & _ & _).
  destruct (sources_at_table "99") as (_ & H2 & _).
  destruct (sources_at_table "14") as (_ & _ & H3).
  split; [apply H1; simpl; tauto|]. split.
  - apply H2. simpl. intuition discriminate.
  - apply (H3 "14"); [reflexivity|discriminate].
Defined.

(** ** Encoding *)

Lemma occurs_app (c : ascii) (s t : string) :
  occurs c (s ++ t) = occurs c s || occurs c t.
Proof. induction s as [|x s IH]; simpl; [reflexivity|]. now rewrite IH, orb_assoc. Qed.

Lemma length_app (s t : string) :
  String.length (s ++ t) = String.length s + String.length t.
Proof. induction s; simpl; congruence. Qed.

Lemma append_inj_r (s t u : string) : s ++ u = t ++ u -> s = t.
Proof.
  revert t. induction s as [|x s IH]; intros [|y t] H; simpl in H.
  - reflexivity.
  - apply (f_equal String.length) in H. simpl in H. rewrite length_app in H. lia.
  - apply (f_equal String.length) in H. simpl in H. rewrite length_app in H. lia.
  - injection H as -> H. f_equal. now apply IH.
Qed.

(** X2.  Two valid commands that are written as the same frame are the same
    command: on the two-digit codes the wire encoding loses nothing. *)
Theorem frameOf_injective (c1 c2 : Command.t) :
  validCommand c1 = true -> validCommand c2 = true ->
  frameOf c1 = frameOf c2 -> c1 = c2.
Proof.
  destruct c1 as [G1 N1 D1], c2 as [G2 N2 D2]. unfold validCommand. cbn [Command.Group Command.Number Command.Data].
  intros V1 V2.
  apply andb_true_iff in V1 as [V1 _]. apply andb_true_iff in V1 as [V1 _].
  apply andb_true_iff in V1 as [HG1 HN1].
  apply andb_true_iff in V2 as [V2 _]. apply andb_true_iff in V2 as [V2 _].
  apply andb_true_iff in V2 as [HG2 HN2].
  apply twoDigits_inv in HG1 as (? & ? & -> & _), HN1 as (? & ? & -> & _).
  apply twoDigits_inv in HG2 as (? & ? & -> & _), HN2 as (? & ? & -> & _).
  unfold frameOf. cbn [Command.Group Command.Number Command.Data].
  destruct (String.eqb_spec D1 "") as [->|Hd1], (String.eqb_spec D2 "") as [->|Hd2];
    cbn [append]; intros E; injection E; intros; subst; try reflexivity;
    try discriminate.
  f_equal. eapply append_inj_r; eassumption.
Qed.

Lemma frameOf_injective_witness : SetMuteOn = Command.mk "01" "04" "1".
Proof. apply frameOf_injective; reflexivity. Defined.

(** ** Decoding *)

(** Induction along the loop of [FindAllStringSubmatch]. *)
Lemma FindAll_ind (P : string -> list (list string) -> Prop) :
  P "" [] ->
  (forall s m rest, matchHere s = Some (m, rest) ->
     P rest (FindAllStringSubmatch rest) -> P s (m :: FindAllStringSubmatch rest)) ->
  (forall c s, matchHere (String c s) = None ->
     P s (FindAllStringSubmatch s) -> P (String c s) (FindAllStringSubmatch s)) ->
  forall s, P s (FindAllStringSubmatch s).
Proof.
  intros H0 Hm Hs s.
  induction s as [s IH] using (well_founded_induction
                                 (Wf_nat.well_founded_ltof _ String.length)).
  rewrite FindAll_step.
  destruct (matchHere s) as [[m rest]|] eqn:E.
  - apply Hm; [exact E|]. apply IH. unfold Wf_nat.ltof.
    destruct (matchHere_sound s m rest E) as (f & _ & ->).
    rewrite length_app. unfold Frame.render. simpl. lia.
  - destruct s as [|c s]; [exact H0|].
    apply Hs; [exact E|]. apply IH. unfold Wf_nat.ltof. simpl. lia.
Qed.

(** What the matcher returns for a frame it accepts. *)
Lemma matchHere_inv (s : string) m rest :
  matchHere s = Some (m, rest) ->
  exists f, Frame.valid f = true /\ s = Frame.render f ++ rest
            /\ replyOf m = Frame.reply f.
Proof.
  intros E. destruct (matchHere_sound s m rest E) as (f & Hf & ->).
  exists f. split; [exact Hf|]. split; [reflexivity|].
  rewrite (matchHere_frame f rest Hf) in E. injection E as <-. reflexivity.
Qed.

Lemma render_length (f : Frame.t) :
  Frame.valid f = true -> 7 <= String.length (Frame.render f).
Proof.
  destruct f as [G N D]. unfold Frame.valid, Frame.render. simpl. intros H.
  apply andb_true_iff in H as [H _]. apply andb_true_iff in H as [HG HN].
  apply twoDigits_inv in HG as (? & ? & -> & _), HN as (? & ? & -> & _).
  simpl. destruct D; simpl; lia.
Qed.

Lemma render_has_CR (f : Frame.t) : occurs CR (Frame.render f) = true.
Proof.
  unfold Frame.render. destruct (Frame.Data f);
    repeat (rewrite occurs_app || cbn [append occurs CRs]);
    rewrite Ascii.eqb_refl;
    repeat (rewrite orb_true_r || rewrite orb_true_l); reflexivity.
Qed.

Lemma matchHere_needs_CR (s : string) :
  occurs CR s = false -> matchHere s = None.
Proof.
  intros H. destruct (matchHere s) as [[m rest]|] eqn:E; [|reflexivity].
  destruct (matchHere_sound s m rest E) as (f & _ & ->).
  rewrite occurs_app, render_has_CR in H. discriminate.
Qed.

Lemma FindAll_without_CR (s : string) :
  occurs CR s = false -> FindAllStringSubmatch s = [].
Proof.
  intros H. apply FindAll_no_frame. intros pre post ->.
  rewrite occurs_app in H. apply orb_false_iff in H as [_ H].
  now apply matchHere_needs_CR.
Qed.

Lemma FindAll_frame (f : Frame.t) (rest : string) :
  Frame.valid f = true ->
  decode (Frame.render f ++ rest) = Frame.reply f :: decode rest.
Proof.
  intros Hf. unfold decode.
  rewrite FindAll_step, (matchHere_frame f rest Hf). reflexivity.
Qed.

(** X3.  A read that holds no carriage return, such as the beginning of a
    frame whose end has not arrived, yields no reply: [readUpdate]
    returns the invalid-reply-format error, the amplifier is unchanged
    and the bytes are gone. *)
Theorem read_without_CR_dropped (buf : string) :
  occurs CR buf = false ->
  decode buf = []
  /\ forall a, readUpdate (inr buf) a = (Some (invalidReplyFormat buf), a).
Proof.
  intros H. pose proof (FindAll_without_CR buf H) as E.
  split; [unfold decode; now rewrite E|].
  intros a. now apply readUpdate_no_match.
Qed.

Lemma read_without_CR_dropped_witness :
  decode "#02,01,1" = []
  /\ readUpdate (inr "#02,01,1") (newAmplifier (mkPort [] []))
     = (Some (invalidReplyFormat "#02,01,1"), newAmplifier (mkPort [] [])).
Proof.
  destruct (read_without_CR_dropped "#02,01,1") as [D R]; [reflexivity|].
  split; [exact D | apply R].
Defined.

(** X4.  Every reply the decoder produces has a two-digit group and number
    and a data field free of carriage returns, whatever the bytes read. *)
Theorem decode_replies_well_formed (buf : string) (r : Reply.t) :
  In r (decode buf) ->
  twoDigits (Reply.Group r) = true /\ twoDigits (Reply.Number r) = true
  /\ occurs CR (Reply.Data r) = false.
Proof.
  unfold decode. revert r.
  apply (FindAll_ind (fun _ l => forall r, In r (map replyOf l) -> _)).
  - intros r [].
  - intros s m rest E IH r [<-|H]; [|now apply IH].
    destruct (matchHere_inv s m rest E) as (f & Hf & _ & ->).
    unfold Frame.valid in Hf. apply andb_true_iff in Hf as [Hf HD].
    apply andb_true_iff in Hf as [HG HN].
    unfold Frame.reply, Frame.field. cbn [Reply.Group Reply.Number Reply.Data].
    repeat split; try assumption.
    destruct (Frame.Data f); [now apply negb_true_iff in HD | reflexivity].
  - intros c s _ IH. exact IH.
Qed.

Lemma decode_replies_well_formed_witness :
  twoDigits "04" = true /\ twoDigits "01" = true /\ occurs CR "14" = false.
Proof.
  apply (decode_replies_well_formed ("noise#04,01,14" ++ CRs ++ "#0")
           (Reply.mk "04" "01" "14")).
  vm_compute. left. reflexivity.
Defined.

Lemma matchHere_needs_hash (c : ascii) (s : string) :
  Ascii.eqb c "#" = false -> matchHere (String c s) = None.
Proof.
  intros H. unfold matchHere.
  destruct s as [|g1 [|g2 [|x [|n1 [|n2 t]]]]]; try reflexivity.
  now rewrite H.
Qed.

Lemma decode_skips (pre s : string) :
  occurs "#" pre = false -> decode (pre ++ s) = decode s.
Proof.
  unfold decode. induction pre as [|c pre IH]; intros H; [reflexivity|].
  cbn [occurs] in H. apply orb_false_iff in H as [Hc Hp].
  cbn [append]. rewrite FindAll_step, (matchHere_needs_hash c _ Hc).
  now apply IH.
Qed.

(** X5.  Bytes in front of a frame that hold no [#] are skipped: the frame is
    decoded as if it stood first, and decoding goes on after it. *)
Theorem decode_skips_noise (pre : string) (f : Frame.t) (rest : string) :
  occurs "#" pre = false -> Frame.valid f = true ->
  decode (pre ++ Frame.render f ++ rest) = Frame.reply f :: decode rest.
Proof.
  intros Hp Hf. rewrite (decode_skips pre _ Hp). now apply FindAll_frame.
Qed.

Lemma decode_skips_noise_witness :
  decode ("OK" ++ Frame.render (Frame.mk "02" "03" (Some "1")) ++ "tail")
  = [Reply.mk "02" "03" "1"].
Proof.
  apply (decode_skips_noise "OK" (Frame.mk "02" "03" (Some "1")) "tail");
    reflexivity.
Defined.

(** X6.  A frame takes at least seven bytes, so a read of n bytes yields at
    most n/7 replies. *)
Theorem decode_count_bound (buf : string) :
  7 * List.length (decode buf) <= String.length buf.
Proof.
  unfold decode. rewrite length_map.
  apply (FindAll_ind (fun s l => 7 * List.length l <= String.length s)).
  - simpl. lia.
  - intros s m rest E IH.
    destruct (matchHere_inv s m rest E) as (f & Hf & -> & _).
    pose proof (render_length f Hf). rewrite length_app. cbn [List.length]. lia.
  - intros c s _ IH. cbn [String.length]. lia.
Qed.

Lemma decode_buffer_tail (fs : list Frame.t) (tail : string) :
  forallb Frame.valid fs = true -> occurs CR tail = false ->
  decode (Frame.buffer fs ++ tail) = map Frame.reply fs.
Proof.
  intros H Ht. induction fs as [|f fs IH].
  - cbn. unfold decode. now rewrite (FindAll_without_CR tail Ht).
  - cbn [forallb] in H. apply andb_true_iff in H as [Hf Hfs].
    change (Frame.buffer (f :: fs)) with (Frame.render f ++ Frame.buffer fs).
    rewrite append_assoc, (FindAll_frame f _ Hf), (IH Hfs). reflexivity.
Qed.

(** X7.  When complete frames are followed by bytes without a carriage
    return (an incomplete frame), [readUpdate] applies the replies of the
    complete frames and returns nil: the incomplete frame is dropped
    without an error and is not kept for the next read. *)
Theorem partial_tail_dropped_silently (fs : list Frame.t) (tail : string) (a : Amplifier) :
  forallb Frame.valid fs = true -> fs <> [] -> occurs CR tail = false ->
  readUpdate (inr (Frame.buffer fs ++ tail)) a
  = (None, fold_left (fun a' r => UpdateState r a') (map Frame.reply fs) a).
Proof.
  intros H Hne Ht.
  pose proof (decode_buffer_tail fs tail H Ht) as D.
  rewrite readUpdate_matches, D; [reflexivity|].
  intros E. unfold decode in D. rewrite E in D.
  destruct fs; [contradiction|discriminate].
Qed.

Lemma partial_tail_dropped_silently_witness :
  readUpdate (inr (Frame.buffer [Frame.mk "02" "01" (Some "1")] ++ "#02,03,"))
             (newAmplifier (mkPort [] []))
  = (None, mkAmp (mkPort [] []) (mkState true false "")).
Proof.
  rewrite (partial_tail_dropped_silently [Frame.mk "02" "01" (Some "1")] "#02,03,");
    [reflexivity | reflexivity | discriminate | reflexivity].
Defined.

(** ** Device state store, further *)

Lemma UpdateState_port (r : Reply.t) (a : Amplifier) :
  port (UpdateState r a) = port a.
Proof.
  unfold UpdateState.
  repeat match goal with
         | |- context [if ?b then _ else _] => destruct b
         end; reflexivity.
Qed.

(** X8.  A reply that is none of (02, 01), (02, 03), (04, 01) changes
    nothing, and [Power] changes under (02, 01) alone. *)
Theorem UpdateState_other_replies (r : Reply.t) (a : Amplifier) :
  (Reply.Group r, Reply.Number r) <> ("02", "01") ->
  Power (state (UpdateState r a)) = Power (state a)
  /\ ((Reply.Group r, Reply.Number r) <> ("02", "03") ->
      (Reply.Group r, Reply.Number r) <> ("04", "01") ->
      UpdateState r a = a).
Proof.
  intros H1. unfold UpdateState.
  destruct (String.eqb_spec (Reply.Group r) "02") as [EG|NG].
  - destruct (String.eqb_spec (Reply.Number r) "01") as [EN|NN];
      [exfalso; apply H1; now rewrite EG, EN|].
    destruct (String.eqb_spec (Reply.Number r) "03") as [EN3|NN3].
    + split; [reflexivity|]. intros H2. exfalso. apply H2. now rewrite EG, EN3.
    + split; reflexivity.
  - destruct (String.eqb_spec (Reply.Group r) "04") as [EG4|NG4]; [|split; reflexivity].
    destruct (String.eqb_spec (Reply.Number r) "01") as [EN|NN]; [|split; reflexivity].
    split; [reflexivity|]. intros _ H3. exfalso. apply H3. now rewrite EG4, EN.
Qed.

Lemma UpdateState_other_replies_witness :
  let a := mkAmp (mkPort [] []) (mkState true true "USB") in
  Power (state (UpdateState (Reply.mk "02" "03" "0") a)) = true
  /\ UpdateState (Reply.mk "14" "01" "1.0") a = a.
Proof.
  intros a. split.
  - apply (UpdateState_other_replies (Reply.mk "02" "03" "0") a). discriminate.
  - apply (UpdateState_other_replies (Reply.mk "14" "01" "1.0") a); discriminate.
Defined.

(** X9.  Applying the same reply twice is applying it once: a repeated or
    echoed reply does no harm. *)
Theorem UpdateState_idempotent (r : Reply.t) (a : Amplifier) :
  UpdateState r (UpdateState r a) = UpdateState r a.
Proof.
  unfold UpdateState.
  destruct (Reply.Group r =? "02").
  - destruct (Reply.Number r =? "01").
    + destruct (Reply.Data r =? "1"); reflexivity.
    + destruct (Reply.Number r =? "03"); reflexivity.
  - destruct (Reply.Group r =? "04"); [|reflexivity].
    destruct (Reply.Number r =? "01"); reflexivity.
Qed.

(** ** Ingestion loop, further *)

Lemma fold_UpdateState_port (rs : list Reply.t) (a : Amplifier) :
  port (fold_left (fun a' r => UpdateState r a') rs a) = port a.
Proof.
  revert a. induction rs as [|r rs IH]; intros a; [reflexivity|].
  cbn [fold_left]. now rewrite IH, UpdateState_port.
Qed.

(** [readUpdate] in terms of what the read contributes. *)
Lemma readUpdate_contribution (rd : ReadResult) (a : Amplifier) :
  snd (readUpdate rd a) = fold_left (fun a' r => UpdateState r a') (repliesOfRead rd) a
  /\ match fst (readUpdate rd a) with
     | Some err => errorsOfRead rd = [err]
     | None => errorsOfRead rd = []
     end.
Proof.
  destruct rd as [err|response]; [split; reflexivity|].
  unfold repliesOfRead, errorsOfRead.
  destruct (FindAllStringSubmatch response) as [|m ms] eqn:E.
  - rewrite (readUpdate_no_match response a E). unfold decode. rewrite E.
    split; reflexivity.
  - rewrite readUpdate_matches by (rewrite E; discriminate).
    unfold decode. rewrite E. split; reflexivity.
Qed.

(** X10.  What [Listen] amounts to over any sequence of reads: the state is
    the initial one with the replies of all the reads applied in order,
    failed and reply-less reads contributing nothing; the log gains one
    error for each failed or reply-less read, in order, whatever the
    state; and the port is never written to. *)
Theorem Listen_replies_in_order (reads : list ReadResult) (a : Amplifier) (log : list error) :
  fst (Listen reads a log)
  = fold_left (fun a' r => UpdateState r a') (flat_map repliesOfRead reads) a
  /\ snd (Listen reads a log) = (log ++ flat_map errorsOfRead reads)%list
  /\ port (fst (Listen reads a log)) = port a.
Proof.
  assert (H : Listen reads a log
              = (fold_left (fun a' r => UpdateState r a') (flat_map repliesOfRead reads) a,
                 (log ++ flat_map errorsOfRead reads)%list)).
  { revert a log. induction reads as [|rd reads IH]; intros a log.
    - cbn. now rewrite app_nil_r.
    - cbn [Listen flat_map]. rewrite fold_left_app.
      destruct (readUpdate_contribution rd a) as [S E].
      destruct (readUpdate rd a) as [[err|] a1]; cbn [fst snd] in S, E;
        rewrite IH, E, <- S; [now rewrite <- app_assoc | reflexivity]. }
  rewrite H. cbn [fst snd]. repeat split. apply fold_UpdateState_port.
Qed.

(** ** Command dispatcher, further *)

Lemma SendCommand_outcome (c : Command.t) (a : Amplifier) :
  fst (SendCommand c a) = hd None (faults (port a)).
Proof. unfold SendCommand, Write. destruct (faults (port a)); reflexivity. Qed.

Ltac split_ifs :=
  repeat match goal with
         | |- context [if ?b then _ else _] => destruct b eqn:?
         end.

(** X11.  A word the dispatcher does not know is answered with an error, and
    nothing else happens: no frame is handed to the port and the state
    stays as it is.  (For mute and source this needs [Power]: see
    [handlers_gated_when_off].) *)
Theorem handlers_reject_unknown_words (s : string) (a : Amplifier) :
  s <> "" ->
  (~ In s powerWords ->
   handlePower s a
   = (Some (errorString ("Unexpected power state " ++ s ++ ", expected: on/off/toggle")), a))
  /\ (Power (state a) = true -> ~ In s muteWords ->
      handleMute s a
      = (Some (errorString
                 ("Unexpected mute state " ++ s ++ ", expected: on/off/muted/unmuted")), a))
  /\ (Power (state a) = true -> ~ In s sourceNames ->
      handleSource s a = (Some (errorString ("Unknown source: " ++ s)), a)).
Proof.
  intros Hne. split; [|split].
  - intros H. unfold handlePower.
    repeat match goal with
           | |- context [s =? ?w] =>
               destruct (String.eqb_spec s w) as [->|?];
               [exfalso; (apply H; simpl; tauto) || now apply Hne|]
           end.
    reflexivity.
  - intros Hon H. unfold handleMute. rewrite Hon. cbn [negb].
    repeat match goal with
           | |- context [s =? ?w] =>
               destruct (String.eqb_spec s w) as [->|?];
               [exfalso; (apply H; simpl; tauto) || now apply Hne|]
           end.
    reflexivity.
  - intros Hon H. unfold handleSource. rewrite Hon. cbn [negb].
    repeat match goal with
           | |- context [s =? ?w] =>
               destruct (String.eqb_spec s w) as [->|?];
               [exfalso; (apply H; simpl; tauto) || now apply Hne|]
           end.
    reflexivity.
Qed.

Lemma handlers_reject_unknown_words_witness :
  let a := mkAmp (mkPort [] []) (mkState true false "") in
  fst (handlePower "standby" a) <> None
  /\ snd (handleMute "mute" a) = a
  /\ handleSource "A9" a = (Some (errorString "Unknown source: A9"), a).
Proof.
  intros a.
  destruct (handlers_reject_unknown_words "standby" a) as (P & _ & _); [discriminate|].
  destruct (handlers_reject_unknown_words "mute" a) as (_ & M & _); [discriminate|].
  destruct (handlers_reject_unknown_words "A9" a) as (_ & _ & S); [discriminate|].
  split; [|split].
  - rewrite P; [discriminate|]. simpl. intuition discriminate.
  - rewrite M; [reflexivity|reflexivity|]. simpl. intuition discriminate.
  - apply S; [reflexivity|]. simpl. intuition discriminate.
Defined.

(** X12.  For "on", "off" and "toggle", [handlePower] hands the port exactly
    one frame, the one of the power state it has just stored; it stores
    that state before the write and keeps it when the write fails, and
    it returns the outcome of the write.  [Mute] and [Source] are left
    as they were, also when switching off. *)
Theorem handlePower_sends_stored_power (s : string) (a : Amplifier) :
  In s powerWords ->
  let a' := snd (handlePower s a) in
  fst (handlePower s a) = hd None (faults (port a))
  /\ writes (port a')
     = (writes (port a)
        ++ [frameOf (if Power (state a') then SetPowerOn else SetPowerStandby)])%list
  /\ Power (state a')
     = (if s =? "on" then true else if s =? "off" then false
        else negb (Power (state a)))
  /\ Mute (state a') = Mute (state a)
  /\ Source (state a') = Source (state a).
Proof.
  intros H. simpl in H.
  destruct H as [<-|[<-|[<-|[]]]]; cbn zeta.
  - change (handlePower "on" a) with (SendCommand SetPowerOn (setPower true a)).
    rewrite SendCommand_outcome, SendCommand_writes, SendCommand_state.
    repeat split.
  - change (handlePower "off" a) with (SendCommand SetPowerStandby (setPower false a)).
    rewrite SendCommand_outcome, SendCommand_writes, SendCommand_state.
    repeat split.
  - rewrite handlePower_toggle. destruct (Power (state a)) eqn:E;
      rewrite SendCommand_outcome, SendCommand_writes, SendCommand_state;
      cbn; rewrite ?E; repeat split.
Qed.

Lemma handlePower_sends_stored_power_witness :
  let a := mkAmp (mkPort [] [Some (errorString "i/o timeout")])
                 (mkState true true "USB") in
  handlePower "off" a
  = (Some (errorString "i/o timeout"),
     mkAmp (mkPort [frameOf SetPowerStandby] []) (mkState false true "USB")).
Proof.
  intros a.
  destruct (handlePower_sends_stored_power "off" a) as (E & W & P & M & S);
    [simpl; tauto|].
  reflexivity.
Defined.

Lemma handleMute_word (s : string) (a : Amplifier) :
  In s muteWords -> Power (state a) = true ->
  handleMute s a
  = SendCommand (if mutes s then SetMuteOn else SetMuteOff) (setMute (mutes s) a).
Proof.
  intros H Hon. unfold handleMute. rewrite Hon. simpl in H.
  destruct H as [<-|[<-|[<-|[<-|[]]]]]; reflexivity.
Qed.

(** X13.  While powered on, a mute word makes [handleMute] store the mute
    state asked for and hand the port the one frame that sets it; the
    device's reply (02, 03) carrying the same data then finds the state
    already as it leaves it. *)
Theorem handleMute_agrees_with_reply (s : string) (a : Amplifier) :
  In s muteWords -> Power (state a) = true ->
  let cmd := if mutes s then SetMuteOn else SetMuteOff in
  let a' := snd (handleMute s a) in
  fst (handleMute s a) = hd None (faults (port a))
  /\ writes (port a') = (writes (port a) ++ [frameOf cmd])%list
  /\ state a' = mkState true (mutes s) (Source (state a))
  /\ UpdateState (Reply.mk "02" "03" (Command.Data cmd)) a' = a'.
Proof.
  intros H Hon. cbn zeta. rewrite (handleMute_word s a H Hon).
  rewrite SendCommand_outcome, SendCommand_writes.
  assert (St : state (snd (SendCommand (if mutes s then SetMuteOn else SetMuteOff)
                             (setMute (mutes s) a)))
               = mkState true (mutes s) (Source (state a))).
  { rewrite SendCommand_state. unfold setMute. cbn. now rewrite Hon. }
  repeat split; [exact St|].
  destruct (snd (SendCommand _ _)) as [p st]. cbn in St. subst st.
  destruct (mutes s); reflexivity.
Qed.

Lemma handleMute_agrees_with_reply_witness :
  let a := mkAmp (mkPort [] []) (mkState true false "A1") in
  state (snd (handleMute "muted" a)) = mkState true true "A1"
  /\ writes (port (snd (handleMute "muted" a))) = [frameOf SetMuteOn].
Proof.
  intros a.
  destruct (handleMute_agrees_with_reply "muted" a) as (_ & W & S & _);
    [simpl; tauto | reflexivity |].
  split; [exact S | exact W].
Defined.

(** X14.  While powered on, each of the eleven source names makes
    [handleSource] store the name and hand the port the one frame
    (03, 04, code) whose code the table [sources] maps back to that
    name: the device's reply (04, 01, code) then leaves the state as the
    handler has set it. *)
Theorem handleSource_agrees_with_reply (s : string) (a : Amplifier) :
  In s sourceNames -> Power (state a) = true ->
  exists code,
    let a' := snd (handleSource s a) in
    sources_at code = s
    /\ fst (handleSource s a) = hd None (faults (port a))
    /\ writes (port a')
       = (writes (port a) ++ [frameOf (Command.mk "03" "04" code)])%list
    /\ state a' = mkState true (Mute (state a)) s
    /\ UpdateState (Reply.mk "04" "01" code) a' = a'.
Proof.
  intros H Hon. simpl in H.
  assert (G : forall code,
             handleSource s a = SendCommand (Command.mk "03" "04" code) (setSource s a) ->
             sources_at code = s ->
             let a' := snd (handleSource s a) in
             sources_at code = s
             /\ fst (handleSource s a) = hd None (faults (port a))
             /\ writes (port a')
                = (writes (port a) ++ [frameOf (Command.mk "03" "04" code)])%list
             /\ state a' = mkState true (Mute (state a)) s
             /\ UpdateState (Reply.mk "04" "01" code) a' = a').
  { intros code E Hc. cbn zeta. rewrite E.
    rewrite SendCommand_outcome, SendCommand_writes.
    assert (St : state (snd (SendCommand (Command.mk "03" "04" code) (setSource s a)))
                 = mkState true (Mute (state a)) s).
    { rewrite SendCommand_state. unfold setSource. cbn. now rewrite Hon. }
    repeat split; [exact Hc | exact St |].
    destruct (snd (SendCommand _ _)) as [p st]. cbn in St. subst st.
    unfold UpdateState, setSource. cbn. now rewrite Hc. }
  repeat (destruct H as [<-|H];
          [eexists; apply G; [unfold handleSource; rewrite Hon; reflexivity
                             | reflexivity]|]).
  destruct H.
Qed.

Lemma handleSource_agrees_with_reply_witness :
  let a := mkAmp (mkPort [] []) (mkState true false "") in
  exists code,
    sources_at code = "Bluetooth"
    /\ writes (port (snd (handleSource "Bluetooth" a)))
       = [frameOf (Command.mk "03" "04" code)].
Proof.
  intros a.
  destruct (handleSource_agrees_with_reply "Bluetooth" a) as (code & C & _ & W & _);
    [simpl; tauto | reflexivity |].
  exists code. split; [exact C | exact W].
Defined.

Lemma appends_none (n : nat) (a : Amplifier) : appendsAtMost n a a.
Proof. exists []. split; [now rewrite app_nil_r | simpl; lia]. Qed.

Lemma SendCommand_appends (c : Command.t) (a0 a : Amplifier) :
  port a0 = port a -> appendsAtMost 1 a (snd (SendCommand c a0)).
Proof.
  intros E. exists [frameOf c]. rewrite SendCommand_writes, E.
  split; [reflexivity | simpl; lia].
Qed.

Lemma handlePower_appends (s : string) (a : Amplifier) :
  appendsAtMost 1 a (snd (handlePower s a)).
Proof.
  unfold handlePower. split_ifs; try apply appends_none;
    now apply SendCommand_appends.
Qed.

Lemma handleMute_appends (s : string) (a : Amplifier) :
  appendsAtMost 1 a (snd (handleMute s a)).
Proof.
  unfold handleMute. split_ifs; try apply appends_none;
    now apply SendCommand_appends.
Qed.

Lemma handleSource_appends (s : string) (a : Amplifier) :
  appendsAtMost 1 a (snd (handleSource s a)).
Proof.
  unfold handleSource. split_ifs; try apply appends_none;
    now apply SendCommand_appends.
Qed.

(** X15.  None of the three handlers ever hands the port more than one frame,
    and what the port was handed before stays, in order, in front of
    it. *)
Theorem handlers_write_at_most_one (s : string) (a : Amplifier) :
  forall h, In h [handlePower; handleMute; handleSource] ->
  exists l, writes (port (snd (h s a))) = (writes (port a) ++ l)%list
            /\ List.length l <= 1.
Proof.
  intros h [<-|[<-|[<-|[]]]].
  - apply handlePower_appends.
  - apply handleMute_appends.
  - apply handleSource_appends.
Qed.

Lemma handlers_write_at_most_one_witness :
  exists l, writes (port (snd (handleSource "USB"
                                 (mkAmp (mkPort ["x"] []) (mkState true false "")))))
            = (["x"] ++ l)%list /\ List.length l <= 1.
Proof.
  apply (handlers_write_at_most_one "USB"
           (mkAmp (mkPort ["x"] []) (mkState true false "")) handleSource).
  simpl. tauto.
Defined.

Lemma handleSource_word (s : string) (a : Amplifier) :
  In s sourceNames -> Power (state a) = true ->
  exists code, sources_at code = s
               /\ handleSource s a
                  = SendCommand (Command.mk "03" "04" code) (setSource s a).
Proof.
  intros H Hon. simpl in H. unfold handleSource. rewrite Hon.
  repeat (destruct H as [<-|H]; [eexists; split; [|reflexivity]; reflexivity|]).
  destruct H.
Qed.

(** ** HTTP surface, further *)

Lemma reported_errorsOf (o : option error) :
  reported o = map (fun e => http_Error e StatusInternalServerError) (errorsOf o).
Proof. destruct o; reflexivity. Qed.

Lemma errorsOf_length (o : option error) : List.length (errorsOf o) <= 1.
Proof. destruct o; simpl; lia. Qed.

(** X16.  The shape of every response of [ServeHTTP].  Either the request is
    a POST whose body does not decode: the response is the 400 alone and
    the amplifier is untouched.  Or the response is at most three 500
    errors followed by the JSON encoding of the state the handler leaves,
    and its status is 200 exactly when there is no error.  In all cases
    the port is handed at most three frames, after those it had. *)
Theorem ServeHTTP_response_shape (r : Request req.t) (a : Amplifier) :
  let w := fst (ServeHTTP r a) in
  let a' := snd (ServeHTTP r a) in
  (exists l, writes (port a') = (writes (port a) ++ l)%list /\ List.length l <= 3)
  /\ ((exists err, Method r = "POST" /\ Body r = inl err
                   /\ w = [http_Error err StatusBadRequest] /\ a' = a)
      \/ (exists errs,
            w = (map (fun e => http_Error e StatusInternalServerError) errs
                 ++ [json_Encode (state a')])%list
            /\ List.length errs <= 3
            /\ (statusOf w = StatusOK <-> errs = []))).
Proof.
  cbn zeta. unfold ServeHTTP.
  assert (N : exists l, writes (port a) = (writes (port a) ++ l)%list
                        /\ List.length l <= 3).
  { exists []. split; [now rewrite app_nil_r | simpl; lia]. }
  destruct (String.eqb_spec (Method r) "POST") as [EM|NM].
  2:{ split; [exact N|]. right. exists []. cbn. repeat split; auto. }
  destruct (Body r) as [err|rq] eqn:EB.
  { split; [exact N|]. left. exists err. cbn. auto. }
  destruct (handlePower_appends (req.Power rq) a) as (l1 & W1 & L1).
  destruct (handlePower (req.Power rq) a) as [e1 a1]. cbn [snd] in W1.
  destruct (handleMute_appends (req.Mute rq) a1) as (l2 & W2 & L2).
  destruct (handleMute (req.Mute rq) a1) as [e2 a2]. cbn [snd] in W2.
  destruct (handleSource_appends (req.Source rq) a2) as (l3 & W3 & L3).
  destruct (handleSource (req.Source rq) a2) as [e3 a3]. cbn [snd fst] in *.
  split.
  - exists (l1 ++ l2 ++ l3)%list. rewrite W3, W2, W1, <- !app_assoc.
    split; [reflexivity|]. rewrite !List.length_app. lia.
  - right. exists (errorsOf e1 ++ errorsOf e2 ++ errorsOf e3)%list.
    rewrite !reported_errorsOf, !map_app, <- !app_assoc.
    split; [reflexivity|]. split.
    + rewrite !List.length_app.
      pose proof (errorsOf_length e1). pose proof (errorsOf_length e2).
      pose proof (errorsOf_length e3). lia.
    + destruct e1, e2, e3; cbn; split; intros H; try reflexivity; discriminate H.
Qed.

Lemma ServeHTTP_response_shape_witness :
  let a := mkAmp (mkPort [] []) (mkState true false "") in
  statusOf (fst (ServeHTTP (postStatus "toggle" "" "") a)) = StatusOK.
Proof.
  intros a.
  destruct (ServeHTTP_response_shape (postStatus "toggle" "" "") a)
    as (_ & [(err & _ & B & _)|(errs & W & _ & S)]).
  - discriminate B.
  - apply S. destruct errs as [|e errs]; [reflexivity|]. discriminate W.
Defined.

(** X17.  A POST that switches on may set mute and source in the same
    request, whatever the state was: [handlePower] has stored
    [Power = true] before the two gated handlers look at it.  Three
    frames are handed to the port, in the order power, mute, source. *)
Theorem status_power_on_opens_gate (m s : string) (a : Amplifier) :
  In m muteWords -> In s sourceNames ->
  let a' := snd (ServeHTTP (postStatus "on" m s) a) in
  state a' = mkState true (mutes m) s
  /\ exists code,
       sources_at code = s
       /\ writes (port a')
          = (writes (port a)
             ++ [frameOf SetPowerOn;
                 frameOf (if mutes m then SetMuteOn else SetMuteOff);
                 frameOf (Command.mk "03" "04" code)])%list.
Proof.
  intros Hm Hs. cbn zeta. unfold ServeHTTP, postStatus.
  cbn [Method Body String.eqb Ascii.eqb Bool.eqb req.Power req.Mute req.Source].
  change (handlePower "on" a) with (SendCommand SetPowerOn (setPower true a)).
  pose proof (SendCommand_state SetPowerOn (setPower true a)) as S1.
  pose proof (SendCommand_writes SetPowerOn (setPower true a)) as W1.
  destruct (SendCommand SetPowerOn (setPower true a)) as [e1 a1]. cbn [snd] in S1, W1.
  assert (P1 : Power (state a1) = true) by now rewrite S1.
  rewrite (handleMute_word m a1 Hm P1).
  pose proof (SendCommand_state (if mutes m then SetMuteOn else SetMuteOff)
                (setMute (mutes m) a1)) as S2.
  pose proof (SendCommand_writes (if mutes m then SetMuteOn else SetMuteOff)
                (setMute (mutes m) a1)) as W2.
  destruct (SendCommand _ (setMute (mutes m) a1)) as [e2 a2]. cbn [snd] in S2, W2.
  assert (P2 : Power (state a2) = true) by (rewrite S2; exact P1).
  destruct (handleSource_word s a2 Hs P2) as (code & Hc & E3). rewrite E3.
  pose proof (SendCommand_state (Command.mk "03" "04" code) (setSource s a2)) as S3.
  pose proof (SendCommand_writes (Command.mk "03" "04" code) (setSource s a2)) as W3.
  destruct (SendCommand _ (setSource s a2)) as [e3 a3]. cbn [snd] in *.
  split.
  - rewrite S3. unfold setSource. cbn. rewrite S2. cbn. now rewrite S1.
  - exists code. split; [exact Hc|].
    rewrite W3. cbn [setSource port]. rewrite W2. cbn [setMute port]. rewrite W1.
    cbn [setPower port]. now rewrite <- !app_assoc.
Qed.

Lemma status_power_on_opens_gate_witness :
  state (snd (ServeHTTP (postStatus "on" "muted" "D2") (newAmplifier (mkPort [] []))))
  = mkState true true "D2".
Proof.
  destruct (status_power_on_opens_gate "muted" "D2" (newAmplifier (mkPort [] [])))
    as [S _]; [simpl; tauto | simpl; tauto |].
  exact S.
Defined.

(** X18.  A POST that switches off ignores its mute and source fields, valid
    or not: the response and the amplifier are those of the request with
    the two fields empty.  One frame, that of [SetPowerStandby], is
    handed to the port, and [Mute] and [Source] keep their values. *)
Theorem status_power_off_closes_gate (m s : string) (a : Amplifier) :
  ServeHTTP (postStatus "off" m s) a = ServeHTTP (postStatus "off" "" "") a
  /\ writes (port (snd (ServeHTTP (postStatus "off" m s) a)))
     = (writes (port a) ++ [frameOf SetPowerStandby])%list
  /\ state (snd (ServeHTTP (postStatus "off" m s) a))
     = mkState false (Mute (state a)) (Source (state a)).
Proof.
  unfold ServeHTTP, postStatus.
  cbn [Method Body String.eqb Ascii.eqb Bool.eqb req.Power req.Mute req.Source].
  change (handlePower "off" a) with (SendCommand SetPowerStandby (setPower false a)).
  pose proof (SendCommand_state SetPowerStandby (setPower false a)) as S1.
  pose proof (SendCommand_writes SetPowerStandby (setPower false a)) as W1.
  destruct (SendCommand SetPowerStandby (setPower false a)) as [e1 a1].
  cbn [snd] in S1, W1.
  assert (P1 : Power (state a1) = false) by now rewrite S1.
  rewrite !(handleMute_off _ a1 P1), !(handleSource_off _ a1 P1). cbn [snd].
  repeat split; [exact W1 | exact S1].
Qed.

(** ** Startup, further *)

(** X19.  [main] either serves, and then the port has been handed exactly the
    three queries for power, mute and source, in this order, none of
    which failed, and the state is the zero state; or it exits on the
    error of [serial.Open] with nothing written, or on the first write
    that fails, with the queries up to and including that one handed to
    the port and none after it. *)
Theorem main_sends_initial_queries (opened : error + Port) :
  match main opened with
  | serving amp =>
      exists p, opened = inr p
                /\ writes (port amp) = (writes p ++ initialQueries)%list
                /\ state amp = zeroState
                /\ forall k, k < 3 -> nth k (faults p) None = None
  | fatal err sent =>
      opened = inl err /\ sent = []
      \/ exists p k, opened = inr p /\ k < 3
                     /\ nth k (faults p) None = Some err
                     /\ (forall j, j < k -> nth j (faults p) None = None)
                     /\ sent = (writes p ++ firstn (S k) initialQueries)%list
  end.
Proof.
  destruct opened as [err|[w fs]]; [left; split; reflexivity|].
  unfold main, SendCommand, Write, newAmplifier. cbn [port faults writes state].
  destruct fs as [|[e0|] fs].
  - cbn. exists (mkPort w []). repeat split.
    + now rewrite <- !app_assoc.
    + intros [|[|[|k]]] _; reflexivity.
  - cbn. right. exists (mkPort w (Some e0 :: fs)), 0. cbn.
    repeat split; [lia | intros j Hj; lia].
  - cbn [faults writes port]. destruct fs as [|[e1|] fs].
    + cbn. exists (mkPort w [None]). repeat split.
      * now rewrite <- !app_assoc.
      * intros [|[|[|k]]] _; reflexivity.
    + cbn. right. exists (mkPort w (None :: Some e1 :: fs)), 1. cbn.
      repeat split; [lia | intros [|j] Hj; [reflexivity|lia] | now rewrite <- app_assoc].
    + cbn [faults writes port]. destruct fs as [|[e2|] fs].
      * cbn. exists (mkPort w [None; None]). repeat split.
        -- now rewrite <- !app_assoc.
        -- intros [|[|[|k]]] _; reflexivity.
      * cbn. right. exists (mkPort w (None :: None :: Some e2 :: fs)), 2. cbn.
        repeat split; [lia | intros [|[|j]] Hj; [reflexivity|reflexivity|lia]
                       | now rewrite <- !app_assoc].
      * cbn. exists (mkPort w (None :: None :: None :: fs)). repeat split.
        -- now rewrite <- !app_assoc.
        -- intros [|[|[|k]]] Hk; try reflexivity. lia.
Qed.

Lemma main_sends_initial_queries_witness :
  main (inr (mkPort [] [None; Some (errorString "EIO")]))
  = fatal (errorString "EIO") [frameOf GetPowerState; frameOf GetMuteState].
Proof.
  pose proof (main_sends_initial_queries
                (inr (mkPort [] [None; Some (errorString "EIO")]))) as H.
  cbn in H. destruct H as [[E _]|(p & k & E & Hk & F & _ & S)]; [discriminate E|].
  reflexivity.
Defined.

(** ** The earlier revision of the server, further *)

Lemma Rev1_SendCommand_state (c : Command.t) (a : Rev1.Amplifier) :
  Rev1.state (snd (Rev1.SendCommand c a)) = Rev1.state a.
Proof. unfold Rev1.SendCommand, Write. destruct (faults (Rev1.port a)); reflexivity. Qed.

Lemma Rev1_handlePower_state (s : string) (a : Rev1.Amplifier) :
  Rev1.state (snd (Rev1.handlePower s a)) = Rev1.state a.
Proof.
  unfold Rev1.handlePower. split_ifs; try reflexivity; apply Rev1_SendCommand_state.
Qed.

Lemma Rev1_handleMute_state (s : string) (a : Rev1.Amplifier) :
  Rev1.state (snd (Rev1.handleMute s a)) = Rev1.state a.
Proof.
  unfold Rev1.handleMute. split_ifs; try reflexivity; apply Rev1_SendCommand_state.
Qed.

Lemma Rev1_handleSource_state (s : string) (a : Rev1.Amplifier) :
  Rev1.state (snd (Rev1.handleSource s a)) = Rev1.state a.
Proof.
  unfold Rev1.handleSource. split_ifs; try reflexivity; apply Rev1_SendCommand_state.
Qed.

(** X20.  In the earlier revision no request changes the state: whatever the
    method, the body and the outcome of the writes, [ServeHTTP] leaves
    [Powered], [Muted] and [Source] as they were, and a status body it
    writes is that of the state before the request.  Only replies of
    the device change the state there. *)
Theorem rev1_requests_keep_state (r : Request req.t) (a : Rev1.Amplifier) :
  Rev1.state (snd (Rev1.ServeHTTP r a)) = Rev1.state a
  /\ forall v, In (Rev1.json_Encode v) (fst (Rev1.ServeHTTP r a)) -> v = Rev1.state a.
Proof.
  unfold Rev1.ServeHTTP.
  destruct (Method r =? "POST").
  2:{ split; [reflexivity|]. intros v [[= <-]|[]]. reflexivity. }
  destruct (Body r) as [err|rq].
  { split; [reflexivity|]. intros v [H|[]]. discriminate H. }
  pose proof (Rev1_handlePower_state (req.Power rq) a) as S1.
  destruct (Rev1.handlePower (req.Power rq) a) as [e1 a1].
  pose proof (Rev1_handleMute_state (req.Mute rq) a1) as S2.
  destruct (Rev1.handleMute (req.Mute rq) a1) as [e2 a2].
  pose proof (Rev1_handleSource_state (req.Mute rq) a2) as S3.
  destruct (Rev1.handleSource (req.Mute rq) a2) as [e3 a3].
  cbn [fst snd] in *.
  assert (S : Rev1.state a3 = Rev1.state a) by congruence.
  split; [exact S|].
  intros v H. rewrite !in_app_iff in H.
  destruct H as [H|[H|[H|[[= <-]|[]]]]]; [| | |exact S];
    match type of H with
    | In _ (Rev1.reported ?e) => destruct e; simpl in H; intuition discriminate
    end.
Qed.

(** X21.  In the earlier revision the third handler is given the mute field:
    the source field of a POST on [/status] has no effect at all, and
    every POST with a non-empty mute field is answered 500, also when
    the mute command itself has been sent. *)
Theorem rev1_status_source_field_unused (p m s : string) (a : Rev1.Amplifier) :
  Rev1.ServeHTTP (postStatus p m s) a = Rev1.ServeHTTP (postStatus p m "") a
  /\ (m <> "" ->
      Rev1.statusOf (fst (Rev1.ServeHTTP (postStatus p m s) a))
      = StatusInternalServerError).
Proof.
  split; [reflexivity|]. intros Hm.
  unfold Rev1.ServeHTTP, postStatus.
  cbn [Method Body String.eqb Ascii.eqb Bool.eqb req.Power req.Mute req.Source].
  assert (E : forall a2, (exists e3 a3, Rev1.handleSource m a2 = (Some e3, a3))
                         \/ exists e2, forall a0, Rev1.handleMute m a0 = (Some e2, a0)).
  { intros a2.
    destruct (String.eqb_spec m "on") as [->|N1]; [left; do 2 eexists; reflexivity|].
    destruct (String.eqb_spec m "muted") as [->|N2]; [left; do 2 eexists; reflexivity|].
    destruct (String.eqb_spec m "off") as [->|N3]; [left; do 2 eexists; reflexivity|].
    destruct (String.eqb_spec m "unmuted") as [->|N4]; [left; do 2 eexists; reflexivity|].
    right. eexists. intros a0. unfold Rev1.handleMute.
    apply String.eqb_neq in N1, N2, N3, N4, Hm.
    rewrite N1, N2, N3, N4, Hm. reflexivity. }
  destruct (Rev1.handlePower p a) as [e1 a1].
  destruct (Rev1.handleMute m a1) as [e2 a2] eqn:E2.
  destruct (E a2) as [(e3 & a3 & E3)|(e2' & Hbad)].
  - rewrite E3. destruct e1, e2; reflexivity.
  - rewrite Hbad in E2. injection E2 as <- <-.
    destruct (Rev1.handleSource m a1) as [e3 a3]. destruct e1; reflexivity.
Qed.

Lemma rev1_status_source_field_unused_witness :
  let a := Rev1.mkAmp (mkPort [] []) (Rev1.mkState true false "") in
  Rev1.statusOf (fst (Rev1.ServeHTTP (postStatus "" "on" "A1") a))
  = StatusInternalServerError
  /\ writes (Rev1.port (snd (Rev1.ServeHTTP (postStatus "" "on" "A1") a)))
     = [frameOf SetMuteOn].
Proof.
  intros a. split; [|reflexivity].
  apply (rev1_status_source_field_unused "" "on" "A1" a). discriminate.
Defined.

Lemma rev1_requests_keep_state_witness :
  let a := Rev1.mkAmp (mkPort [] []) (Rev1.mkState false false "") in
  Rev1.state (snd (Rev1.ServeHTTP (postStatus "on" "" "") a)) = Rev1.state a
  /\ Rev1.mkState false false "" = Rev1.state a.
Proof.
  intros a.
  destruct (rev1_requests_keep_state (postStatus "on" "" "") a) as [S J].
  split; [exact S|]. apply J. simpl. tauto.
Defined.

Lemma Rev1_Listen_app (r1 r2 : list ReadResult) (a : Rev1.Amplifier) :
  Rev1.Listen (r1 ++ r2) a
  = match Rev1.Listen r1 a with
    | Rev1.panicked v a' => Rev1.panicked v a'
    | Rev1.blocked a' => Rev1.Listen r2 a'
    end.
Proof.
  revert a. induction r1 as [|[err|response] r1 IH]; intros a; cbn [app Rev1.Listen].
  - reflexivity.
  - reflexivity.
  - destruct (FindAllStringSubmatch response); [reflexivity|]. apply IH.
Qed.

(** X22.  The earlier [Listen] does not survive a bad read.  Once the reads
    before it have been applied, a read that failed or that holds no
    frame makes it panic with the state as it was, and no read after
    it is ever applied. *)
Theorem rev1_listen_stops_at_bad_read
        (pre : list ReadResult) (bad : ReadResult) (rest : list ReadResult)
        (a a' : Rev1.Amplifier) :
  Rev1.Listen pre a = Rev1.blocked a' ->
  errorsOfRead bad <> [] ->
  Rev1.Listen (pre ++ bad :: rest) a = Rev1.panicked (panicOf bad) a'.
Proof.
  intros Hpre Hbad. rewrite Rev1_Listen_app, Hpre.
  destruct bad as [err|response]; [reflexivity|].
  cbn [Rev1.Listen panicOf]. unfold errorsOfRead, decode in Hbad.
  destruct (FindAllStringSubmatch response); [reflexivity|].
  exfalso. apply Hbad. reflexivity.
Qed.

Lemma rev1_listen_stops_at_bad_read_witness :
  let a := Rev1.mkAmp (mkPort [] []) (Rev1.mkState false false "") in
  Rev1.Listen ([inr ("#02,01,1" ++ CRs)] ++ inr "#02,0" :: [inr ("#02,03,1" ++ CRs)]) a
  = Rev1.panicked (Rev1.panicInvalidReply "#02,0")
                  (Rev1.mkAmp (mkPort [] []) (Rev1.mkState true false "")).
Proof.
  intros a.
  apply (rev1_listen_stops_at_bad_read [inr ("#02,01,1" ++ CRs)] (inr "#02,0")).
  - reflexivity.
  - vm_compute. discriminate.
Defined.


(** ** The first revision, further *)

Lemma chopLast_snoc (d : string) (c : ascii) :
  Rev0.chopLast (d ++ String c "") = Some (d, c).
Proof.
  induction d as [|x d IH]; [reflexivity|].
  cbn [append Rev0.chopLast]. now rewrite IH.
Qed.

Lemma render_body (f : Frame.t) : Frame.render f = frameBody f ++ CRs.
Proof.
  unfold Frame.render, frameBody. destruct (Frame.Data f);
    cbn [append]; rewrite ?append_assoc; cbn [append];
    rewrite ?append_assoc; cbn [append]; rewrite ?append_assoc; reflexivity.
Qed.

(** What the anchored pattern takes after the six bytes of the codes
    when a comma follows: all up to a final carriage return, if no line
    feed stands before it. *)
Lemma Rev0_match_data (g1 g2 n1 n2 : ascii) (d : string) :
  isDigit g1 = true -> isDigit g2 = true -> isDigit n1 = true -> isDigit n2 = true ->
  occurs Rev0.LF d = false ->
  let G := String g1 (String g2 "") in
  let N := String n1 (String n2 "") in
  Rev0.Read (inr ("#" ++ G ++ "," ++ N ++ "," ++ d ++ CRs))
  = inr (Reply.mk G N d).
Proof.
  intros Hg1 Hg2 Hn1 Hn2 Hd. cbn zeta. unfold Rev0.Read, Rev0.FindStringSubmatch.
  cbn [append]. rewrite Hg1, Hg2, Hn1, Hn2. cbn [Ascii.eqb Bool.eqb andb].
  unfold CRs. rewrite chopLast_snoc, Ascii.eqb_refl, Hd. reflexivity.
Qed.

(** X24.  The first revision reads back a frame sent alone: two-digit codes,
    and a data field that may hold anything but a line feed. *)
Theorem rev0_read_single_frame (f : Frame.t) :
  rev0Frame f = true ->
  Rev0.Read (inr (Frame.render f)) = inr (Frame.reply f).
Proof.
  destruct f as [G N D]. unfold rev0Frame, Frame.render, Frame.reply, Frame.field.
  cbn [Frame.Group Frame.Number Frame.Data]. intros H.
  apply andb_true_iff in H as [H HD]. apply andb_true_iff in H as [HG HN].
  apply twoDigits_inv in HG as (g1 & g2 & -> & Hg1 & Hg2).
  apply twoDigits_inv in HN as (n1 & n2 & -> & Hn1 & Hn2).
  destruct D as [d|].
  - apply negb_true_iff in HD. now apply Rev0_match_data.
  - unfold Rev0.Read, Rev0.FindStringSubmatch. cbn [append CRs].
    rewrite Hg1, Hg2, Hn1, Hn2. reflexivity.
Qed.

Lemma rev0_read_single_frame_witness :
  Rev0.Read (inr (Frame.render (Frame.mk "04" "01" (Some "14"))))
  = inr (Reply.mk "04" "01" "14").
Proof. apply (rev0_read_single_frame (Frame.mk "04" "01" (Some "14"))). reflexivity. Defined.

(** X25.  Two frames that arrive in one read defeat the first revision.  When
    the first frame has no data the read is rejected; when it has, the
    read is taken as one reply whose data runs on through the carriage
    return and the whole second frame. *)
Theorem rev0_coalesced_frames (f1 f2 : Frame.t) :
  rev0Frame f1 = true -> rev0Frame f2 = true ->
  Rev0.Read (inr (Frame.render f1 ++ Frame.render f2))
  = match Frame.Data f1 with
    | None =>
        inl (errorString ("invalid reply format: "
                          ++ Frame.render f1 ++ Frame.render f2))
    | Some d =>
        inr (Reply.mk (Frame.Group f1) (Frame.Number f1)
                      (d ++ CRs ++ frameBody f2))
    end.
Proof.
  intros H1 H2. destruct f1 as [G N D]. unfold rev0Frame in H1.
  cbn [Frame.Group Frame.Number Frame.Data] in *.
  apply andb_true_iff in H1 as [H1 HD]. apply andb_true_iff in H1 as [HG HN].
  apply twoDigits_inv in HG as (g1 & g2 & -> & Hg1 & Hg2).
  apply twoDigits_inv in HN as (n1 & n2 & -> & Hn1 & Hn2).
  destruct D as [d|].
  - apply negb_true_iff in HD.
    assert (HL : occurs Rev0.LF (d ++ CRs ++ frameBody f2) = false).
    { rewrite !occurs_app, HD. cbn [occurs CRs orb].
      destruct f2 as [G2 N2 D2]. unfold rev0Frame in H2. unfold frameBody.
      cbn [Frame.Group Frame.Number Frame.Data] in *.
      apply andb_true_iff in H2 as [H2 HD2]. apply andb_true_iff in H2 as [HG2 HN2].
      apply twoDigits_inv in HG2 as (a1 & a2 & -> & Ha1 & Ha2).
      apply twoDigits_inv in HN2 as (b1 & b2 & -> & Hb1 & Hb2).
      assert (NL : forall c, isDigit c = true -> Ascii.eqb c Rev0.LF = false).
      { intros c Hc. apply Ascii.eqb_neq. intros ->. discriminate Hc. }
      cbn [append occurs]. rewrite (NL _ Ha1), (NL _ Ha2), (NL _ Hb1), (NL _ Hb2).
      destruct D2 as [d2|]; cbn [append occurs orb Ascii.eqb Bool.eqb];
        [apply negb_true_iff in HD2; rewrite HD2|]; reflexivity. }
    pose proof (Rev0_match_data g1 g2 n1 n2 _ Hg1 Hg2 Hn1 Hn2 HL) as R.
    cbn zeta in R. rewrite <- R. f_equal. f_equal.
    rewrite (render_body f2). unfold Frame.render. cbn [Frame.Group Frame.Number Frame.Data].
    cbn [append]. now rewrite !append_assoc.
  - unfold Rev0.Read, Rev0.FindStringSubmatch at 1.
    unfold Frame.render at 1. cbn [Frame.Group Frame.Number Frame.Data append CRs].
    rewrite Hg1, Hg2, Hn1, Hn2. cbn [Ascii.eqb Bool.eqb andb].
    rewrite (render_body f2). unfold frameBody. cbn [append]. reflexivity.
Qed.

Lemma rev0_coalesced_frames_witness :
  Rev0.Read (inr (Frame.render (Frame.mk "02" "01" (Some "1"))
                  ++ Frame.render (Frame.mk "02" "03" (Some "0"))))
  = inr (Reply.mk "02" "01" ("1" ++ CRs ++ "#02,03,0")).
Proof.
  apply (rev0_coalesced_frames (Frame.mk "02" "01" (Some "1"))
                               (Frame.mk "02" "03" (Some "0"))); reflexivity.
Defined.

(** ** Reply interpreter, further *)

(** X26.  The switch of [Reply.String] is the table [descriptions]: the
    rendering is the table's description of (group, number), or the
    unknown-reply text with the three raw fields when the table has
    none, followed by ": " and the raw data when the data is not empty.
    For an unknown reply with data the data is therefore shown twice. *)
Theorem Reply_String_by_table (r : Reply.t) :
  Reply_String r
  = describe r ++ (if Reply.Data r =? "" then "" else ": " ++ Reply.Data r).
Proof.
  assert (E : forall s, s ++ "" = s) by apply append_empty_r.
  destruct r as [G N D].
  unfold Reply_String, describe, descriptions.
  cbn [find fst snd Reply.Group Reply.Number Reply.Data].
  repeat match goal with
         | |- context [String.eqb ?a ?b] =>
             destruct (String.eqb_spec a b); subst; try congruence;
             cbn [andb negb]
         end;
    rewrite ?E; reflexivity.
Qed.

(** ** The source endpoint, further *)

Lemma HTTPSource_known_witness :
  exists data,
    writes (port (snd (SourceEndpoint.HTTPSource (postSource "MP3")
                         (newAmplifier (mkPort [] [])))))
    = [frameOf (Command.mk "03" "04" data)]
    /\ sources_at data = "MP3".
Proof.
  destruct (HTTPSource_known "MP3" (newAmplifier (mkPort [] [])))
    as (data & W & S & _); [simpl; tauto|].
  exists data. split; [exact W | exact S].
Defined.
